(* ===== verification/_CoqProject ===== *)
-Q . S2P
Prelude.v
Sha1.v
Hmac.v
TeeApi.v
Verdict.v
HmacTa.v
Host.v
Sessions.v
Store.v
Clients.v
