(* ===== verification/Prelude.v ===== *)
(** * A verification library for the OP-TEE HMAC example (optee_examples)

    The repository has two programs that talk through the GlobalPlatform TEE
    interfaces:

    - the trusted application (TA) of [src/hmac/ta/hmac_ta.c] with the command
      identifiers of [src/hmac/ta/hmac_ta.h].  It keeps three process-wide
      buffers (the shared key [K]/[K_len], the message [input]/[input_len]
      and the expected tag [output]/[output_len]); the commands 0, 1 and 2
      overwrite one buffer each ([register_shared_key], [register_message],
      [register_output]) and command 3 ([get_hmac]) computes HMAC-SHA1 of
      the stored message under the stored key through the GlobalPlatform
      Internal Core API ([hmac_sha1]) and writes into [params[0].value.a]
      0 when the first [output_len] bytes of the tag equal [output], 1
      otherwise.  [TA_InvokeCommandEntryPoint] dispatches on the command id,
      [TA_OpenSessionEntryPoint] checks the session parameters; the state is
      shared by every session.
    - the normal-world client [src/mac_sha1/host/main.c], which opens a
      session and sends the four commands with a fixed key, message and
      expected tag, then prints the verdict.

    ** Files, in dependency order

    - [Prelude] (this file): the byte and 32-bit word vocabulary, the C
      library routines the TA calls ([memset0], [memcpy]) with what a
      clear-then-copy leaves in a buffer, what [printf]'s [%s] conversion
      reads in the client's output ([cstr_read]), the notation scope [tee_scope]
      ([⊕] exclusive or, [⊞] 32-bit addition), the hint databases [tee] and
      [tee_rw], and the list lemmas the components share.
    - [Sha1] (Module [Sha1]): SHA-1 of FIPS 180-4, executable.  The TA does
      not implement SHA-1: it binds the TEE's crypto library; this file is
      the reference that library is specified against, checked on the
      FIPS "abc" vector.
    - [Hmac] (Module [Hmac]): HMAC of RFC 2104 in a Section over any block
      hash, instantiated as [HMAC_SHA1], checked on RFC 2202 vectors; a
      short key and the same key followed by zeros give the same tag.
    - [TeeApi]: the GlobalPlatform Internal Core API the TA calls: result
      codes, the descriptor macros [TEE_PARAM_TYPES]/[TEE_PARAM_TYPE_GET]
      with their round trip, [TEE_Param] and the typing of the [params]
      array by its descriptor ([params_typed]); the crypto operations and
      the TEE core's trace service ([trace_printf], reached by [EMSG]) as
      a type class [TeeCrypto] whose laws [TeeCryptoLaws] state what
      allocating, keying and freeing do to the table of handles and that
      only [trace_printf] adds to the trace; and Module [Heap], an
      executable implementation over a [gmap] of objects with a capacity
      and a trace, computing [Hmac.HMAC_SHA1], with its instance of the
      laws.
    - [Verdict] (Module [Verdict]): the comparison loop of [get_hmac]
      (lines 220-228) with its round count.
    - [HmacTa] (Module [HmacTa]): the TA.  Its statics are the record
      [ta_globals]; [hmac_sha1] (with its [exit:] label [hmac_sha1_exit]),
      [register_shared_key], [register_message], [register_output],
      [get_hmac] and the entry points are one definition each, from the
      state before to the result code, parameters and state after.  The
      crypto state is any [H] with a [TeeCrypto] instance: the theorems on
      handles hold for every implementation satisfying [TeeCryptoLaws];
      the functional theorems on [get_hmac] use [Heap].
    - [Host] (Module [Host]): [main] of [main.c] run against the TA, with
      what it prints: each [fprintf] and [errx] is an entry
      ([host_output]) of the output [main] returns, its format string and
      the arguments its conversions read.
    - [Sessions] (Module [Sessions]): the TA instance the TEE core drives by
      opening sessions, invoking commands on them and closing them
      ([ta_step], [ta_run], the reachable instances [reachable], the
      deliveries the core may make [deliveries_ok]).
    - [Store] (Module [Store]): the Secure State Store and Verifier as
      the spec states them (§4.2-§4.4): three slots holding the bytes
      last written, [set] with its capacity check, [verify] on
      [tag[0 .. len)]; [abs] reads the slots off the TA's buffers, and
      the commands of [HmacTa] are shown to implement the contract, and
      the instance of [Sessions] to implement it with one store for all
      its sessions.
    - [Clients] (Module [Clients]): [main]'s command sequence as the
      deliveries of one session ([host_events]), shown to agree with
      [main] ([main_is_one_session]); two clients running it at once as an [interleave] of their
      deliveries.

    ** Theorems (by group; C<n> are the claims of the manifest)

    - get_hmac: C1 (the verdict written is the contract [expected_verdict]),
      C11 (no out-of-bounds read), C15 (fails before any registration),
      C23 (out of TEE memory, the code is logged and the verdict written
      comes from the uninitialised [mac]);
    - the loop: C2 (value, and rounds up to the first wrong byte, so the
      running time reveals where a forged tag goes wrong);
    - the store: C19 (every command refines the spec's contract of the
      store and verifier through [abs], keeping the invariant and the
      room in the TEE for the next command), C12 (every sequence of
      deliveries the core may make, over any sessions, refines the
      contract run on one store shared by all sessions);
    - the register handlers and the dispatcher: C5-C7 (each handler's
      success condition and effect), C8 (buffer invariant), C9
      (validate-then-commit), C10 (rejections, with the [EMSG] of
      [get_hmac]), C26 (the parameter array keeps the kinds its
      descriptor declares), C27 ([value.a] is 0 or 1), C24 (two different
      registrations commute);
    - the crypto adapter: C4 (every handle allocated is freed, on every
      path), C13 (key range), C14 (a short key is accepted at
      registration and fails at use), C22 (it logs at most the code it
      returns, and only a failure), C16 (a failure of
      [TEE_MACComputeFinal] is not logged, against spec §7);
    - the host: C3 (the run prints the three registrations and 0), C17
      (registering the test vector's tag with any one byte changed makes
      GET_HMAC report a mismatch), C18 (every [%s] it prints over-reads,
      from the first line on), C21 (the last line printed reports the
      outcome, and no verdict is printed after a failure), C25 (the error
      exit of [main] when the TEE has no room);
    - sessions: C20 (invariant of every reachable instance), C28 (every
      sequence of deliveries the core may make runs to the end);
    - clients: C29 (two clients of [main] at once, in any interleaving,
      both read 0).

    ** Bounds and fuel

    No definition needs fuel: the TA's one loop runs [output_len <= 20]
    rounds by structural recursion on the count, SHA-1 folds over the
    blocks of the padded message, and a run of the TA is a fold over a list
    of deliveries.  C28 is the proof that no run gets stuck.  The C code's
    [uint32_t] values stay far below [2^32] on every path (descriptors
    below [2^16], lengths at most 64 by the buffer invariant C8 and C20,
    [value.a] 0 or 1 by C27), so they are [Z] without a wrap; the SHA-1
    words are 32-bit with the wrap-around written out ([⊞], [rotl]).
    [Heap] has a capacity of handles; the functional theorems assume room
    for the two handles [hmac_sha1] allocates.  [main] passes
    [params[0]] of GET_HMAC as the value pair [(0, 0)] of [op = { 0 }];
    [get_hmac] overwrites [value.a] and never reads it, so the initial
    value does not matter.

    ** Not modelled

    The logging of the register handlers: their [EMSG] of a wrong
    descriptor and their [DMSG] of a stored buffer.  The [EMSG]s of
    [hmac_sha1] and of [get_hmac] are modelled, as calls of the trace
    service through the TEE state those functions already thread; the
    register handlers take no TEE state in the model (they touch only the
    TA's statics), and giving them one only for a debug trace would turn
    the exact statement that registrations commute (C24) into one up to
    the order of trace lines.  Spec §7 asks for the logging of primitive
    failures only.  The TEE core's transport of parameters (the
    model receives the [TEE_Param] array the core built); panics of the
    Internal API, which [Heap] reports as error codes.  The client library
    behind [TEEC_InitializeContext] and [TEEC_OpenSession]: the first
    enters only through its result, the second as the TEE core finding
    the TA by the UUID [main] passes ([TEEC_OpenSession] in [Host]), with
    the library's own failures (no driver, no memory) not modelled.  The
    formatting of the printed text: an output entry keeps the format
    string and the values its conversions read, not the characters
    [printf] would produce.  Build files and the vector generator.  The
    constant [DBC2_MODULO] is unused by the code. *)

From stdpp Require Export base list gmap.
From Stdlib Require Export ZArith Lia.

Open Scope Z_scope.

Declare Scope tee_scope.
Delimit Scope tee_scope with tee.

Create HintDb tee discriminated.
Create Rewrite HintDb tee_rw.

(** ** Bytes and words *)

(** A byte buffer is a list of integers, each in [0, 256). *)
Abbreviation bytes := (list Z).

Definition byte_ok (b : Z) : Prop := 0 <= b < 256.
#[export] Instance byte_ok_dec b : Decision (byte_ok b) := _.

Definition bytes_ok (l : bytes) : Prop := Forall byte_ok l.
#[export] Instance bytes_ok_dec l : Decision (bytes_ok l) := _.

(** The width of the TA's [uint32_t] and [size_t] fields. *)
Definition u32_modulus : Z := 2 ^ 32.
Definition u32_ok (z : Z) : Prop := 0 <= z < u32_modulus.
#[export] Instance u32_ok_dec z : Decision (u32_ok z) := _.

(** Reduction modulo [2^32]: the wrap-around of a C [uint32_t]. *)
Definition wrap32 (z : Z) : Z := z mod u32_modulus.

Notation "x ⊕ y" := (Z.lxor x y) (at level 40, left associativity) : tee_scope.
Notation "x ⊞ y" := (wrap32 (x + y)) (at level 50, left associativity) : tee_scope.

(** ** The C library routines of [string.h] *)

(** [memset(p, 0, n)] on a buffer of [n] bytes. *)
Definition memset0 (n : nat) : bytes := replicate n 0.

(** [memcpy(dst, src, n)]: the first [n] bytes of [dst] become those of
    [src]; the rest of [dst] is kept. *)
Definition memcpy (dst src : bytes) (n : nat) : bytes := take n src ++ drop n dst.

(** The bytes that [printf("%s", p)] reads from a buffer: everything up to
    and including the first NUL, or [None] when the buffer holds no NUL,
    in which case the read runs past its end. *)
Fixpoint cstr_read (l : bytes) : option bytes :=
  match l with
  | [] => None
  | b :: l' => if decide (b = 0) then Some [b] else (b ::.) <$> cstr_read l'
  end.

(** ** Shared lemmas *)

Lemma length_memcpy (dst src : bytes) (n : nat) :
  (n <= length src)%nat -> (n <= length dst)%nat ->
  length (memcpy dst src n) = length dst.
Proof. intros. unfold memcpy. rewrite length_app, length_take, length_drop. lia. Qed.

Lemma memcpy_zero_full (src : bytes) (cap : nat) :
  (length src <= cap)%nat ->
  memcpy (memset0 cap) src (length src) = src ++ replicate (cap - length src) 0.
Proof.
  intros. unfold memcpy, memset0. rewrite take_ge by lia. by rewrite drop_replicate.
Qed.

Lemma bytes_ok_app (l1 l2 : bytes) : bytes_ok (l1 ++ l2) <-> bytes_ok l1 /\ bytes_ok l2.
Proof. apply Forall_app. Qed.

Lemma bytes_ok_replicate0 n : bytes_ok (replicate n 0).
Proof. apply Forall_replicate. unfold byte_ok. lia. Qed.

Lemma bytes_ok_take (l : bytes) n : bytes_ok l -> bytes_ok (take n l).
Proof. apply Forall_take. Qed.

Lemma bytes_ok_drop (l : bytes) n : bytes_ok l -> bytes_ok (drop n l).
Proof. apply Forall_drop. Qed.

Lemma byte_ok_mod256 z : byte_ok (z mod 256).
Proof. unfold byte_ok. pose proof (Z.mod_pos_bound z 256). lia. Qed.

#[export] Hint Resolve bytes_ok_replicate0 bytes_ok_take bytes_ok_drop byte_ok_mod256 : tee.
#[export] Hint Resolve <- bytes_ok_app : tee.

Lemma cstr_read_some_nul (l : bytes) s :
  cstr_read l = Some s -> 0 ∈ l.
Proof.
  revert s. induction l as [|b l IH]; intros s H; simpl in H; [done|].
  case_decide; subst; [set_solver|].
  destruct (cstr_read l) eqn:E; simplify_eq/=. apply elem_of_cons. right. eauto.
Qed.

(** A buffer with no NUL byte makes [%s] read past its end. *)
Lemma cstr_read_none (l : bytes) : 0 ∉ l -> cstr_read l = None.
Proof.
  intros Hn. destruct (cstr_read l) eqn:E; [|done].
  exfalso. by eapply Hn, cstr_read_some_nul.
Qed.

(** ** Tactics *)

(** Split the result tuples and conditionals of a handler. *)
Ltac tee_case :=
  repeat match goal with
  | |- context [if decide ?P then _ else _] => case_decide
  | H : context [if decide ?P then _ else _] |- _ => case_decide
  | |- context [match ?x with pair _ _ => _ end] => destruct x eqn:?
  end.
