(* ===== verification/Sha1.v ===== *)
(** * SHA-1 (FIPS 180-4), executable

    The TA computes its tag with [TEE_ALG_HMAC_SHA1] of the TEE's crypto
    library; this file is the hash that library implements: big-endian
    encodings of words and lengths (§3.1), the padding (§5.1.1), the
    parsing into 512-bit blocks (§5.2.1), the message schedule and the 80
    rounds (§6.1.2).  Words are [Z] in [0, 2^32) with the wrap-around of
    §3.2 written out ([⊞], [rotl]). *)

From S2P Require Import Prelude.
Local Open Scope tee_scope.

Module Sha1.

(** ** Big-endian encodings *)

(** [be_split n z]: the [n] low bytes of [z], most significant first. *)
Fixpoint be_split (n : nat) (z : Z) : bytes :=
  match n with
  | O => []
  | S n' => be_split n' (z / 256) ++ [z mod 256]
  end.

Definition be_combine (l : bytes) : Z := fold_left (fun acc b => acc * 256 + b) l 0.

(** [chunks k n m]: the first [n] pieces of [k] bytes of [m]. *)
Fixpoint chunks (k n : nat) (m : bytes) : list bytes :=
  match n with
  | O => []
  | S n' => take k m :: chunks k n' (drop k m)
  end.

(** ** The functions and constants of §4.1.1 and §4.2.1 *)

Definition rotl (n x : Z) : Z :=
  Z.land (Z.lor (Z.shiftl x n) (Z.shiftr x (32 - n))) (Z.ones 32).

Definition f_t (t : nat) (b c d : Z) : Z :=
  if (t <? 20)%nat then Z.land b c ⊕ Z.land (Z.lnot b) d
  else if (t <? 40)%nat then b ⊕ c ⊕ d
  else if (t <? 60)%nat then Z.land b c ⊕ Z.land b d ⊕ Z.land c d
  else b ⊕ c ⊕ d.

Definition K_t (t : nat) : Z :=
  if (t <? 20)%nat then 0x5a827999
  else if (t <? 40)%nat then 0x6ed9eba1
  else if (t <? 60)%nat then 0x8f1bbcdc
  else 0xca62c1d6.

(** The five working variables / hash words [a, b, c, d, e]. *)
Record regs := mkRegs { ra : Z; rb : Z; rc : Z; rd : Z; re : Z }.

Definition H0 : regs := mkRegs 0x67452301 0xefcdab89 0x98badcfe 0x10325476 0xc3d2e1f0.

(** ** Padding and parsing (§5.1.1, §5.2.1) *)

(** The number of zero bytes after the [0x80] byte: the least [k] with
    [len + 1 + k + 8] a multiple of 64. *)
Definition pad_zeros (len : nat) : nat := Z.to_nat ((55 - Z.of_nat len) mod 64).

Definition pad (msg : bytes) : bytes :=
  msg ++ [0x80] ++ replicate (pad_zeros (length msg)) 0
      ++ be_split 8 (Z.of_nat (length msg) * 8).

(** ** Message schedule and compression (§6.1.2) *)

(** The words [W_16 .. W_79]: [win] holds the sixteen previous words,
    [W_{t-16}] first. *)
Fixpoint schedule_ext (n : nat) (win : list Z) : list Z :=
  match n with
  | O => []
  | S n' =>
      let w := rotl 1 (nth 13 win 0 ⊕ nth 8 win 0 ⊕ nth 2 win 0 ⊕ nth 0 win 0) in
      w :: schedule_ext n' (tail win ++ [w])
  end.

Definition schedule (blk : list Z) : list Z := blk ++ schedule_ext 64 blk.

(** One round [t] with word [W_t]. *)
Definition round (r : regs) (tw : nat * Z) : regs :=
  let '(t, w) := tw in
  let T := rotl 5 (ra r) ⊞ f_t t (rb r) (rc r) (rd r) ⊞ re r ⊞ K_t t ⊞ w in
  mkRegs T (ra r) (rotl 30 (rb r)) (rc r) (rd r).

Definition compress (h : regs) (blk : list Z) : regs :=
  let r := fold_left round (combine (seq 0 80) (schedule blk)) h in
  mkRegs (ra h ⊞ ra r) (rb h ⊞ rb r) (rc h ⊞ rc r) (rd h ⊞ rd r) (re h ⊞ re r).

Definition digest (h : regs) : bytes :=
  be_split 4 (ra h) ++ be_split 4 (rb h) ++ be_split 4 (rc h)
  ++ be_split 4 (rd h) ++ be_split 4 (re h).

Definition words_of_block (blk : bytes) : list Z := map be_combine (chunks 4 16 blk).

Definition sha1 (msg : bytes) : bytes :=
  let p := pad msg in
  digest (fold_left (fun h blk => compress h (words_of_block blk))
                    (chunks 64 (length p / 64) p) H0).

(** The size of a SHA-1 digest, [SHA1_HASH_SIZE] of the TA. *)
Definition SHA1_HASH_SIZE : Z := 20.

(** ** Encodings: lengths and round trips *)

Lemma length_be_split n z : length (be_split n z) = n.
Proof. induction n in z |- *; simpl; [done|]. rewrite length_app, IHn. simpl. lia. Qed.

Lemma be_split_ok n z : bytes_ok (be_split n z).
Proof. induction n in z |- *; simpl; [constructor|]. apply bytes_ok_app. split; [done|].
  constructor; [apply byte_ok_mod256|constructor].
Qed.

#[export] Hint Resolve be_split_ok : tee.
#[export] Hint Rewrite length_be_split : tee_rw.

Lemma be_combine_snoc (l : bytes) b : be_combine (l ++ [b]) = be_combine l * 256 + b.
Proof. unfold be_combine. by rewrite fold_left_app. Qed.

Lemma pow_8S (n : nat) : 2 ^ (8 * Z.of_nat (S n)) = 256 * 2 ^ (8 * Z.of_nat n).
Proof. rewrite Nat2Z.inj_succ, Z.mul_succ_r, Z.pow_add_r by lia. lia. Qed.

(** Decoding an encoding gives the number back modulo [2^(8n)]. *)
Lemma be_combine_split n z : be_combine (be_split n z) = z mod 2 ^ (8 * Z.of_nat n).
Proof.
  induction n in z |- *; simpl be_split; [by rewrite Z.mod_1_r|].
  rewrite be_combine_snoc, IHn, pow_8S, Z.rem_mul_r by (try apply Z.pow_pos_nonneg; lia).
  lia.
Qed.

(** Encoding the decoding of a byte list gives the list back. *)
Lemma be_split_combine (l : bytes) : bytes_ok l -> be_split (length l) (be_combine l) = l.
Proof.
  induction l as [|b l IH] using rev_ind; intros Hok; [done|].
  apply bytes_ok_app in Hok as [Hl Hb]. inversion Hb as [|? ? Hb0]; subst.
  unfold byte_ok in Hb0.
  rewrite length_app, Nat.add_1_r, be_combine_snoc. simpl.
  rewrite Z.div_add_l, Z.div_small, Z.add_0_r, IH by (done || lia).
  rewrite Z.add_comm, Z.mod_add, Z.mod_small by lia. done.
Qed.

Lemma be_combine_bound (l : bytes) : bytes_ok l -> 0 <= be_combine l < 2 ^ (8 * Z.of_nat (length l)).
Proof.
  intros Hok. pose proof (be_combine_split (length l) (be_combine l)) as E.
  rewrite be_split_combine in E by done. rewrite E.
  apply Z.mod_pos_bound, Z.pow_pos_nonneg; lia.
Qed.

Lemma chunks_concat k n (m : bytes) : length m = (k * n)%nat -> mjoin (chunks k n m) = m.
Proof.
  induction n in m |- *; intros Hl; simpl.
  - destruct m; simpl in *; [done|lia].
  - rewrite IHn by (rewrite length_drop; lia). apply take_drop.
Qed.

Lemma length_chunks k n (m : bytes) : length (chunks k n m) = n.
Proof. induction n in m |- *; simpl; auto. Qed.

(** ** Padding *)

Lemma length_pad (m : bytes) :
  Z.of_nat (length (pad m)) = Z.of_nat (length m) + 9 + (55 - Z.of_nat (length m)) mod 64.
Proof.
  unfold pad, pad_zeros. rewrite !length_app, length_replicate, length_be_split. simpl.
  pose proof (Z.mod_pos_bound (55 - Z.of_nat (length m)) 64). lia.
Qed.

(** The padded message is a whole number of 64-byte blocks, longer than
    the message by 9 to 72 bytes. *)
Lemma pad_bounds (m : bytes) :
  Z.of_nat (length (pad m)) mod 64 = 0 /\
  Z.of_nat (length m) + 9 <= Z.of_nat (length (pad m)) <= Z.of_nat (length m) + 72.
Proof.
  rewrite length_pad. pose proof (Z.mod_pos_bound (55 - Z.of_nat (length m)) 64).
  split; [|lia].
  rewrite Z.add_mod, Z.mod_mod, <- Z.add_mod by lia.
  replace (Z.of_nat (length m) + 9 + (55 - Z.of_nat (length m))) with (1 * 64) by lia.
  by rewrite Z.mod_mul.
Qed.

(** Unpadding: the message is the prefix of its padding, and the last
    eight bytes encode its length in bits. *)
Lemma pad_prefix (m : bytes) : take (length m) (pad m) = m.
Proof. unfold pad. by rewrite take_app_length. Qed.

(** The last eight bytes of the padding decode to the message length
    in bits, for messages shorter than 2^61 bytes. *)
Lemma pad_length_field (m : bytes) :
  Z.of_nat (length m) < 2 ^ 61 ->
  be_combine (drop (length (pad m) - 8) (pad m)) = Z.of_nat (length m) * 8.
Proof.
  intros Hl. unfold pad. rewrite !app_assoc.
  rewrite (length_app _ (be_split _ _)), length_be_split, Nat.add_sub, drop_app_length.
  rewrite be_combine_split, Z.mod_small; simpl; lia.
Qed.

(** ** The digest *)

Lemma length_digest h : length (digest h) = 20%nat.
Proof. unfold digest. by rewrite !length_app, !length_be_split. Qed.

Lemma digest_ok h : bytes_ok (digest h).
Proof. unfold digest. rewrite !bytes_ok_app. repeat split; apply be_split_ok. Qed.

(** A SHA-1 digest is [SHA1_HASH_SIZE] (20) bytes, each a byte: the
    [mac] array of [get_hmac] is filled exactly. *)
Theorem sha1_length_ok (m : bytes) :
  Z.of_nat (length (sha1 m)) = SHA1_HASH_SIZE /\ bytes_ok (sha1 m).
Proof. unfold sha1. rewrite length_digest. split; [done|apply digest_ok]. Qed.

(** The padded message splits into its 64-byte blocks without loss:
    joining the blocks [sha1] compresses gives the padded message back. *)
Lemma pad_blocks (m : bytes) :
  mjoin (chunks 64 (length (pad m) / 64) (pad m)) = pad m.
Proof.
  destruct (pad_bounds m) as [Hmod _].
  assert (Nat.modulo (length (pad m)) 64 = 0%nat) as Hm
    by (apply Nat2Z.inj; by rewrite Nat2Z.inj_mod).
  pose proof (Nat.div_mod_eq (length (pad m)) 64).
  apply chunks_concat. lia.
Qed.

(** The FIPS 180 example "abc": SHA-1 of the three bytes [61 62 63] is
    [a9993e36 4706816a ba3e2571 7850c26c 9cd0d89d]. *)
Example sha1_abc :
  sha1 [0x61; 0x62; 0x63] =
    [0xa9; 0x99; 0x3e; 0x36; 0x47; 0x06; 0x81; 0x6a; 0xba; 0x3e;
     0x25; 0x71; 0x78; 0x50; 0xc2; 0x6c; 0x9c; 0xd0; 0xd8; 0x9d].
Proof. vm_compute. reflexivity. Qed.

End Sha1.
