(* ===== verification/Hmac.v ===== *)
(** * HMAC (RFC 2104) over a block hash, and HMAC-SHA1

    [TEE_ALG_HMAC_SHA1], which the TA's [hmac_sha1] asks the TEE for, is
    RFC 2104 over SHA-1 with 64-byte blocks.  The construction is stated
    in a Section over the hash and its block size; the key normalisation
    (hash a long key, zero-pad a short one) is where the TA's fixed-size key
    buffer meets the MAC: trailing zero bytes of a short key do not change
    the tag. *)

From S2P Require Import Prelude Sha1.
Local Open Scope tee_scope.

Module Hmac.

Section Construction.
Context (hash : bytes -> bytes) (B : nat).

(** [K0] of RFC 2104: the key hashed when longer than a block, then
    zero-padded to the block size. *)
Definition hmac_key (key : bytes) : bytes :=
  let k := if decide (B < length key)%nat then hash key else key in
  k ++ replicate (B - length k) 0.

Definition xor_pad (k : bytes) (p : Z) : bytes := map (fun b => b ⊕ p) k.

Definition ipad : Z := 0x36.
Definition opad : Z := 0x5c.

Definition hmac (key msg : bytes) : bytes :=
  let k0 := hmac_key key in
  hash (xor_pad k0 opad ++ hash (xor_pad k0 ipad ++ msg)).

(** A short key and the same key followed by zero bytes (up to the block
    size) give the same padded key. *)
Lemma hmac_key_zero_extend (key : bytes) (n : nat) :
  (length key + n <= B)%nat ->
  hmac_key (key ++ replicate n 0) = hmac_key key.
Proof.
  intros Hn. unfold hmac_key. rewrite length_app, length_replicate.
  rewrite !decide_False by lia.
  rewrite <- app_assoc, <- replicate_add, length_app, length_replicate. do 2 f_equal. lia.
Qed.

(** Zero bytes appended to a key shorter than a block do not change
    the tag: the TA's zero-filled key buffer [K] may be passed at any
    length between [K_len] and the block size. *)
Lemma hmac_zero_extend (key msg : bytes) (n : nat) :
  (length key + n <= B)%nat ->
  hmac (key ++ replicate n 0) msg = hmac key msg.
Proof. intros Hn. unfold hmac. by rewrite hmac_key_zero_extend. Qed.

Lemma length_hmac_key (key : bytes) :
  (forall m, (length (hash m) <= B)%nat) -> length (hmac_key key) = B.
Proof.
  intros Hh. unfold hmac_key. case_decide.
  - rewrite length_app, length_replicate. specialize (Hh key). lia.
  - rewrite length_app, length_replicate. lia.
Qed.
End Construction.

(** The MAC the TA's [TEE_ALG_HMAC_SHA1] operation computes. *)
Definition HMAC_SHA1 (key msg : bytes) : bytes := hmac Sha1.sha1 64 key msg.
Arguments HMAC_SHA1 : simpl never.

(** An HMAC-SHA1 tag is [SHA1_HASH_SIZE] bytes. *)
Lemma HMAC_SHA1_length_ok (key msg : bytes) :
  Z.of_nat (length (HMAC_SHA1 key msg)) = Sha1.SHA1_HASH_SIZE /\ bytes_ok (HMAC_SHA1 key msg).
Proof.
  unfold HMAC_SHA1, hmac, Sha1.sha1. rewrite Sha1.length_digest. split; [done|apply Sha1.digest_ok].
Qed.

Lemma length_HMAC_SHA1 (key msg : bytes) : length (HMAC_SHA1 key msg) = 20%nat.
Proof. pose proof (HMAC_SHA1_length_ok key msg) as [H _]. unfold Sha1.SHA1_HASH_SIZE in H. lia. Qed.

(** RFC 2202, test cases 2 (a 4-byte key) and 6 (an 80-byte key, longer
    than a block, which is hashed first). *)
Example hmac_sha1_rfc2202 :
  HMAC_SHA1 [74; 101; 102; 101]
            [119; 104; 97; 116; 32; 100; 111; 32; 121; 97; 32; 119; 97; 110; 116; 32;
             102; 111; 114; 32; 110; 111; 116; 104; 105; 110; 103; 63] =
    [0xef; 0xfc; 0xdf; 0x6a; 0xe5; 0xeb; 0x2f; 0xa2; 0xd2; 0x74;
     0x16; 0xd5; 0xf1; 0x84; 0xdf; 0x9c; 0x25; 0x9a; 0x7c; 0x79] /\
  HMAC_SHA1 (replicate 80 0xaa)
            [84; 101; 115; 116; 32; 85; 115; 105; 110; 103; 32; 76; 97; 114; 103; 101;
             114; 32; 84; 104; 97; 110; 32; 66; 108; 111; 99; 107; 45; 83; 105; 122;
             101; 32; 75; 101; 121; 32; 45; 32; 72; 97; 115; 104; 32; 75; 101; 121;
             32; 70; 105; 114; 115; 116] =
    [0xaa; 0x4a; 0xe5; 0xe1; 0x52; 0x72; 0xd0; 0x0e; 0x95; 0x70;
     0x56; 0x37; 0xce; 0x8a; 0x3b; 0x55; 0xed; 0x40; 0x21; 0x12].
Proof. split; vm_compute; reflexivity. Qed.

End Hmac.
