(* ===== verification/TeeApi.v ===== *)
(** * The GlobalPlatform TEE Internal Core API used by the TA

    The TA includes [tee_internal_api.h]; this file states the part of it
    the TA calls.
    - Result codes ([TEE_Result] is a [uint32_t]) and the parameter-type
      descriptor: [TEE_PARAM_TYPES] packs four 4-bit types into one word,
      and [TEE_PARAM_TYPE_GET] unpacks them.
    - [TEE_Param], the union of a memory reference and a pair of values.
    - The cryptographic operations as a type class [TeeCrypto] over an
      abstract TEE state, and their resource laws [TeeCryptoLaws] as a
      handle table: allocation adds a fresh handle of its kind, the two
      free functions remove a handle of their kind, everything else leaves
      the table alone.  The class also holds the TEE core's trace service
      ([trace_printf], which [EMSG] calls at level [TRACE_ERROR]), whose
      laws say it appends one line and that no crypto operation touches
      the trace.  The TA's [hmac_sha1] is proved against these laws.
    - [Heap]: an executable implementation, with a handle store, a
      capacity that makes allocation fail with [TEE_ERROR_OUT_OF_MEMORY],
      the key-size rules of HMAC-SHA1, the MAC of [Hmac.HMAC_SHA1], and
      the list of trace lines received. *)

From stdpp Require Import strings.
From S2P Require Import Prelude Sha1 Hmac.

(** ** Result codes *)

Abbreviation TEE_Result := Z.

Definition TEE_SUCCESS : TEE_Result := 0x00000000.
Definition TEE_ERROR_GENERIC : TEE_Result := 0xFFFF0000.
Definition TEE_ERROR_BAD_PARAMETERS : TEE_Result := 0xFFFF0006.
Definition TEE_ERROR_BAD_STATE : TEE_Result := 0xFFFF0007.
Definition TEE_ERROR_NOT_SUPPORTED : TEE_Result := 0xFFFF000A.
Definition TEE_ERROR_OUT_OF_MEMORY : TEE_Result := 0xFFFF000C.
Definition TEE_ERROR_SHORT_BUFFER : TEE_Result := 0xFFFF0010.

(** ** Parameter types *)

Definition TEE_PARAM_TYPE_NONE : Z := 0.
Definition TEE_PARAM_TYPE_VALUE_INPUT : Z := 1.
Definition TEE_PARAM_TYPE_VALUE_OUTPUT : Z := 2.
Definition TEE_PARAM_TYPE_VALUE_INOUT : Z := 3.
Definition TEE_PARAM_TYPE_MEMREF_INPUT : Z := 5.
Definition TEE_PARAM_TYPE_MEMREF_OUTPUT : Z := 6.
Definition TEE_PARAM_TYPE_MEMREF_INOUT : Z := 7.

(** [#define TEE_PARAM_TYPES(t0,t1,t2,t3)
       ((t0) | ((t1) << 4) | ((t2) << 8) | ((t3) << 12))] *)
Definition TEE_PARAM_TYPES (t0 t1 t2 t3 : Z) : Z :=
  Z.lor t0 (Z.lor (Z.shiftl t1 4) (Z.lor (Z.shiftl t2 8) (Z.shiftl t3 12))).

(** [#define TEE_PARAM_TYPE_GET(t, i) (((t) >> ((i) * 4)) & 0xF)] *)
Definition TEE_PARAM_TYPE_GET (t i : Z) : Z := Z.land (Z.shiftr t (i * 4)) 0xF.

Definition nibble (t : Z) : Prop := 0 <= t < 16.
#[export] Instance nibble_dec t : Decision (nibble t) := _.

(** ** TA identity *)

(** [TEE_UUID]: the identity of a TA, by which a client opens a session. *)
Record TEE_UUID := mkUUID {
  timeLow : Z; timeMid : Z; timeHiAndVersion : Z; clockSeqAndNode : list Z }.

#[export] Instance TEE_UUID_eq_dec : EqDecision TEE_UUID.
Proof. solve_decision. Defined.

(** ** Parameters *)

(** A [TEE_Param] as the TEE core fills it for the declared type: a memory
    reference ([memref.buffer] with [memref.size] its length), a value
    pair, or nothing. *)
Inductive TEE_Param :=
| TP_memref (buffer : bytes)
| TP_value (a b : Z)
| TP_none.

Definition memref_buffer (p : TEE_Param) : bytes :=
  match p with TP_memref b => b | _ => [] end.

Definition memref_size (p : TEE_Param) : Z := Z.of_nat (length (memref_buffer p)).

(** [params[i].value.a = v]: the [b] half of the value is kept. *)
Definition set_value_a (v : Z) (p : TEE_Param) : TEE_Param :=
  match p with TP_value _ b => TP_value v b | _ => TP_value v 0 end.

Definition value_a (p : TEE_Param) : option Z :=
  match p with TP_value a _ => Some a | _ => None end.

(** What the TEE core guarantees of the [params] array it passes: four
    entries, each of the kind its 4-bit type in the descriptor names (a
    value pair for the value types, a memory reference for the memref
    types, nothing for [TEE_PARAM_TYPE_NONE]). *)
Definition param_has_type (t : Z) (p : TEE_Param) : Prop :=
  match p with
  | TP_none => t = TEE_PARAM_TYPE_NONE
  | TP_value _ _ =>
      t = TEE_PARAM_TYPE_VALUE_INPUT \/ t = TEE_PARAM_TYPE_VALUE_OUTPUT \/ t = TEE_PARAM_TYPE_VALUE_INOUT
  | TP_memref _ =>
      t = TEE_PARAM_TYPE_MEMREF_INPUT \/ t = TEE_PARAM_TYPE_MEMREF_OUTPUT \/ t = TEE_PARAM_TYPE_MEMREF_INOUT
  end.

#[export] Instance param_has_type_dec t p : Decision (param_has_type t p).
Proof. destruct p; simpl; apply _. Defined.

Definition params_typed (param_types : Z) (params : list TEE_Param) : Prop :=
  Forall2 (fun i p => param_has_type (TEE_PARAM_TYPE_GET param_types i) p) [0; 1; 2; 3] params.

#[export] Instance params_typed_dec pt params : Decision (params_typed pt params).
Proof. unfold params_typed. apply _. Defined.

(** An attribute made by [TEE_InitRefAttribute(&attr, id, buffer, length)]. *)
Record TEE_Attribute := { attributeID : Z; attr_content : bytes }.

Definition TEE_InitRefAttribute (id : Z) (buffer : bytes) (len : Z) : TEE_Attribute :=
  {| attributeID := id; attr_content := take (Z.to_nat len) buffer |}.

(** ** Algorithm identifiers *)

Definition TEE_HANDLE_NULL : Z := 0.
Definition TEE_ALG_HMAC_SHA1 : Z := 0x30000002.
Definition TEE_MODE_MAC : Z := 4.
Definition TEE_TYPE_HMAC_SHA1 : Z := 0xA0000002.
Definition TEE_ATTR_SECRET_VALUE : Z := 0xC0000000.

(** The kind of an allocated handle. *)
Inductive handle_kind := KOperation | KObject.
#[export] Instance handle_kind_eq_dec : EqDecision handle_kind.
Proof. solve_decision. Defined.

(** ** The TEE core's trace

    [EMSG(fmt, ...)] of OP-TEE's [trace.h] is a call into the TEE core's
    trace service at level [TRACE_ERROR]: a line with its format and its
    integer arguments. *)

Definition TRACE_ERROR : Z := 1.

Record trace_line := mkTrace { tr_level : Z; tr_fmt : string; tr_args : list Z }.

(** ** The crypto interface, with the trace service *)

Class TeeCrypto (H : Type) := {
  tee_trace : H -> list trace_line;
  trace_printf : H -> trace_line -> H;
  tee_handles : H -> gmap Z handle_kind;
  TEE_AllocateOperation : H -> Z -> Z -> Z -> TEE_Result * Z * H;
  TEE_AllocateTransientObject : H -> Z -> Z -> TEE_Result * Z * H;
  TEE_PopulateTransientObject : H -> Z -> list TEE_Attribute -> TEE_Result * H;
  TEE_SetOperationKey : H -> Z -> Z -> TEE_Result * H;
  TEE_MACInit : H -> Z -> bytes -> H;
  TEE_MACUpdate : H -> Z -> bytes -> H;
  TEE_MACComputeFinal : H -> Z -> bytes -> bytes -> Z -> TEE_Result * bytes * Z * H;
  TEE_FreeOperation : H -> Z -> H;
  TEE_FreeTransientObject : H -> Z -> H
}.

Section Laws.
Context {H : Type} `{TeeCrypto H}.

Definition EMSG (h : H) (fmt : string) (args : list Z) : H :=
  trace_printf h (mkTrace TRACE_ERROR fmt args).

(** What an allocation does to the handle table: a fresh non-null
    handle of kind [k] on success, nothing and a null handle on failure. *)
Definition alloc_spec (k : handle_kind) (h : H) (r : TEE_Result * Z * H) : Prop :=
  let '(res, hd, h') := r in
  (res = TEE_SUCCESS /\ hd <> TEE_HANDLE_NULL /\ tee_handles h !! hd = None /\
     tee_handles h' = <[hd := k]> (tee_handles h)) \/
  (res <> TEE_SUCCESS /\ hd = TEE_HANDLE_NULL /\ tee_handles h' = tee_handles h).

(** Freeing a handle of kind [k] removes it; any other argument (the
    null handle included) leaves the table as it is. *)
Definition free_spec (k : handle_kind) (h : H) (hd : Z) (h' : H) : Prop :=
  tee_handles h' =
    if decide (tee_handles h !! hd = Some k) then delete hd (tee_handles h)
    else tee_handles h.
End Laws.

Class TeeCryptoLaws (H : Type) `{TeeCrypto H} := {
  null_not_allocated h : tee_handles h !! TEE_HANDLE_NULL = None;
  alloc_operation_spec h a m k : alloc_spec KOperation h (TEE_AllocateOperation h a m k);
  alloc_object_spec h t s : alloc_spec KObject h (TEE_AllocateTransientObject h t s);
  populate_handles h o attrs : tee_handles (TEE_PopulateTransientObject h o attrs).2 = tee_handles h;
  set_key_handles h op o : tee_handles (TEE_SetOperationKey h op o).2 = tee_handles h;
  mac_init_handles h op iv : tee_handles (TEE_MACInit h op iv) = tee_handles h;
  mac_update_handles h op c : tee_handles (TEE_MACUpdate h op c) = tee_handles h;
  mac_final_handles h op m b l : tee_handles (TEE_MACComputeFinal h op m b l).2 = tee_handles h;
  mac_final_length h op m b l :
    (Z.to_nat l <= length b)%nat -> length (TEE_MACComputeFinal h op m b l).1.1.2 = length b;
  free_operation_spec h op : free_spec KOperation h op (TEE_FreeOperation h op);
  free_object_spec h o : free_spec KObject h o (TEE_FreeTransientObject h o);
  trace_handles h l : tee_handles (trace_printf h l) = tee_handles h;
  trace_printf_trace h l : tee_trace (trace_printf h l) = tee_trace h ++ [l];
  alloc_operation_trace h a m k : tee_trace (TEE_AllocateOperation h a m k).2 = tee_trace h;
  alloc_object_trace h t s : tee_trace (TEE_AllocateTransientObject h t s).2 = tee_trace h;
  populate_trace h o attrs : tee_trace (TEE_PopulateTransientObject h o attrs).2 = tee_trace h;
  set_key_trace h op o : tee_trace (TEE_SetOperationKey h op o).2 = tee_trace h;
  mac_init_trace h op iv : tee_trace (TEE_MACInit h op iv) = tee_trace h;
  mac_update_trace h op c : tee_trace (TEE_MACUpdate h op c) = tee_trace h;
  mac_final_trace h op m b l : tee_trace (TEE_MACComputeFinal h op m b l).2 = tee_trace h;
  free_operation_trace h op : tee_trace (TEE_FreeOperation h op) = tee_trace h;
  free_object_trace h o : tee_trace (TEE_FreeTransientObject h o) = tee_trace h
}.

(** ** Descriptor encoding: lemmas *)

Lemma lor_small_mul (a b n : Z) :
  0 <= n -> 0 <= a < 2 ^ n -> 0 <= b -> Z.lor a (b * 2 ^ n) = a + b * 2 ^ n.
Proof.
  intros Hn Ha Hb. symmetry. apply Z.add_nocarry_lor.
  apply Z.bits_inj_0. intros i. rewrite Z.land_spec.
  destruct (Z.lt_ge_cases i n) as [Hi|Hi].
  - rewrite <- Z.shiftl_mul_pow2, (Z.shiftl_spec_low b n i) by lia. apply andb_false_r.
  - destruct (decide (a = 0)) as [->|]; [by rewrite Z.bits_0|].
    assert (2 ^ n <= 2 ^ i) by (apply Z.pow_le_mono_r; lia).
    rewrite Z.bits_above_log2; [done|lia|].
    apply Z.log2_lt_pow2; lia.
Qed.

Lemma TEE_PARAM_TYPES_sum t0 t1 t2 t3 :
  nibble t0 -> nibble t1 -> nibble t2 -> nibble t3 ->
  TEE_PARAM_TYPES t0 t1 t2 t3 = t0 + t1 * 16 + t2 * 256 + t3 * 4096.
Proof.
  unfold nibble, TEE_PARAM_TYPES. intros.
  rewrite !Z.shiftl_mul_pow2 by lia.
  rewrite (lor_small_mul (t2 * 2 ^ 8) t3 12) by (simpl; lia).
  replace (t2 * 2 ^ 8 + t3 * 2 ^ 12) with ((t2 + t3 * 16) * 2 ^ 8) by (simpl; lia).
  rewrite (lor_small_mul (t1 * 2 ^ 4) (t2 + t3 * 16) 8) by (simpl; lia).
  replace (t1 * 2 ^ 4 + (t2 + t3 * 16) * 2 ^ 8) with ((t1 + t2 * 16 + t3 * 256) * 2 ^ 4)
    by (simpl; lia).
  rewrite (lor_small_mul t0 _ 4) by (simpl; lia). simpl. lia.
Qed.

Lemma TEE_PARAM_TYPE_GET_div t i : 0 <= i -> TEE_PARAM_TYPE_GET t i = (t / 2 ^ (i * 4)) mod 16.
Proof.
  intros Hi. unfold TEE_PARAM_TYPE_GET.
  rewrite Z.shiftr_div_pow2 by lia. change 0xF with (Z.ones 4). by rewrite Z.land_ones.
Qed.

Lemma digit_div a b : 0 <= a < 16 -> (a + b * 16) / 16 = b.
Proof. intros. rewrite Z.div_add, Z.div_small by lia. lia. Qed.

Lemma digit_mod a b : 0 <= a < 16 -> (a + b * 16) mod 16 = a.
Proof. intros. rewrite Z.mod_add, Z.mod_small by lia. lia. Qed.

Lemma TEE_PARAM_TYPE_GET_succ t i :
  0 <= i -> TEE_PARAM_TYPE_GET t (i + 1) = TEE_PARAM_TYPE_GET (t / 16) i.
Proof.
  intros Hi. rewrite !TEE_PARAM_TYPE_GET_div by lia. f_equal.
  rewrite Z.div_div by lia. f_equal.
  rewrite Z.mul_add_distr_r, Z.pow_add_r by lia. simpl. lia.
Qed.

(** [TEE_PARAM_TYPE_GET] decodes the descriptor [TEE_PARAM_TYPES]
    builds from four 4-bit types back into the four types. *)
Lemma TEE_PARAM_TYPES_roundtrip t0 t1 t2 t3 :
  nibble t0 -> nibble t1 -> nibble t2 -> nibble t3 ->
  TEE_PARAM_TYPE_GET (TEE_PARAM_TYPES t0 t1 t2 t3) 0 = t0 /\
  TEE_PARAM_TYPE_GET (TEE_PARAM_TYPES t0 t1 t2 t3) 1 = t1 /\
  TEE_PARAM_TYPE_GET (TEE_PARAM_TYPES t0 t1 t2 t3) 2 = t2 /\
  TEE_PARAM_TYPE_GET (TEE_PARAM_TYPES t0 t1 t2 t3) 3 = t3.
Proof.
  intros H0 H1 H2 H3. rewrite TEE_PARAM_TYPES_sum by done. unfold nibble in *.
  replace (t0 + t1 * 16 + t2 * 256 + t3 * 4096) with (t0 + (t1 + (t2 + t3 * 16) * 16) * 16) by lia.
  change 3 with (2 + 1). change 2 with (1 + 1). change 1 with (0 + 1) at 1 2 3 4 5 6.
  rewrite !TEE_PARAM_TYPE_GET_succ by lia. rewrite !digit_div by lia.
  rewrite !TEE_PARAM_TYPE_GET_div by lia. rewrite !Z.div_1_r.
  repeat split; apply digit_mod || (rewrite Z.mod_small); lia.
Qed.

(** Two descriptors of 4-bit types are equal only when their four
    types are: the TA's single comparison [param_types != exp_param_types]
    checks every parameter's type. *)
Lemma TEE_PARAM_TYPES_inj a0 a1 a2 a3 b0 b1 b2 b3 :
  Forall nibble [a0; a1; a2; a3; b0; b1; b2; b3] ->
  TEE_PARAM_TYPES a0 a1 a2 a3 = TEE_PARAM_TYPES b0 b1 b2 b3 ->
  a0 = b0 /\ a1 = b1 /\ a2 = b2 /\ a3 = b3.
Proof.
  intros Hn. repeat (apply Forall_cons in Hn as [? Hn]).
  rewrite !TEE_PARAM_TYPES_sum by done. unfold nibble in *. lia.
Qed.

(** ** An executable implementation *)

Module Heap.

Record op_state := mkOp {
  op_algorithm : Z; op_mode : Z; op_maxKeySize : Z;
  op_key : option bytes; op_data : bytes }.

Record obj_state := mkObj { obj_type : Z; obj_maxSize : Z; obj_secret : option bytes }.

Inductive tee_object := OpObj (s : op_state) | KeyObj (s : obj_state).

Definition kind_of (o : tee_object) : handle_kind :=
  match o with OpObj _ => KOperation | KeyObj _ => KObject end.

(** Handles are the positive numbers; [TEE_HANDLE_NULL] is never one.
    [h_trace] is what the trace service has received. *)
Record heap := mkHeap {
  h_objects : gmap positive tee_object; h_capacity : nat; h_trace : list trace_line }.

Definition obj_at (h : heap) (hd : Z) : option tee_object :=
  match hd with Zpos p => h_objects h !! p | _ => None end.

Definition set_obj (h : heap) (p : positive) (o : tee_object) : heap :=
  mkHeap (<[p := o]> (h_objects h)) (h_capacity h) (h_trace h).

Definition del_obj (h : heap) (p : positive) : heap :=
  mkHeap (delete p (h_objects h)) (h_capacity h) (h_trace h).

(** HMAC-SHA1 keys are 80 to 512 bits, a whole number of bytes. *)
Definition hmac_sha1_key_size (bits : Z) : Prop := 80 <= bits <= 512 /\ bits mod 8 = 0.

Definition allocate (h : heap) (o : tee_object) : TEE_Result * Z * heap :=
  if decide (h_capacity h <= size (h_objects h))%nat
  then (TEE_ERROR_OUT_OF_MEMORY, TEE_HANDLE_NULL, h)
  else let p := fresh (dom (h_objects h)) in (TEE_SUCCESS, Zpos p, set_obj h p o).

Definition AllocateOperation (h : heap) (alg mode maxKeySize : Z) : TEE_Result * Z * heap :=
  if decide (alg = TEE_ALG_HMAC_SHA1 /\ mode = TEE_MODE_MAC /\ hmac_sha1_key_size maxKeySize)
  then allocate h (OpObj (mkOp alg mode maxKeySize None []))
  else (TEE_ERROR_NOT_SUPPORTED, TEE_HANDLE_NULL, h).

Definition AllocateTransientObject (h : heap) (ty maxSize : Z) : TEE_Result * Z * heap :=
  if decide (ty = TEE_TYPE_HMAC_SHA1 /\ hmac_sha1_key_size maxSize)
  then allocate h (KeyObj (mkObj ty maxSize None))
  else (TEE_ERROR_NOT_SUPPORTED, TEE_HANDLE_NULL, h).

Definition PopulateTransientObject (h : heap) (o : Z) (attrs : list TEE_Attribute)
    : TEE_Result * heap :=
  match o, obj_at h o, attrs with
  | Zpos p, Some (KeyObj st), [a] =>
      if decide (attributeID a = TEE_ATTR_SECRET_VALUE /\
                 Z.of_nat (length (attr_content a)) * 8 <= obj_maxSize st)
      then (TEE_SUCCESS,
            set_obj h p (KeyObj (mkObj (obj_type st) (obj_maxSize st) (Some (attr_content a)))))
      else (TEE_ERROR_BAD_PARAMETERS, h)
  | _, _, _ => (TEE_ERROR_BAD_PARAMETERS, h)
  end.

Definition SetOperationKey (h : heap) (op o : Z) : TEE_Result * heap :=
  match op, obj_at h op, obj_at h o with
  | Zpos p, Some (OpObj st), Some (KeyObj ko) =>
      match obj_secret ko with
      | Some k =>
          if decide (Z.of_nat (length k) * 8 <= op_maxKeySize st)
          then (TEE_SUCCESS, set_obj h p (OpObj (mkOp (op_algorithm st) (op_mode st)
                                                   (op_maxKeySize st) (Some k) [])))
          else (TEE_ERROR_BAD_PARAMETERS, h)
      | None => (TEE_ERROR_BAD_STATE, h)
      end
  | _, _, _ => (TEE_ERROR_BAD_PARAMETERS, h)
  end.

(** Replace the data fed to the MAC of an operation. *)
Definition set_data (h : heap) (op : Z) (f : bytes -> bytes) : heap :=
  match op, obj_at h op with
  | Zpos p, Some (OpObj st) =>
      set_obj h p (OpObj (mkOp (op_algorithm st) (op_mode st) (op_maxKeySize st)
                               (op_key st) (f (op_data st))))
  | _, _ => h
  end.

Definition MACInit (h : heap) (op : Z) (iv : bytes) : heap := set_data h op (fun _ => []).

Definition MACUpdate (h : heap) (op : Z) (chunk : bytes) : heap :=
  set_data h op (fun d => d ++ chunk).

Definition MACComputeFinal (h : heap) (op : Z) (msg mac : bytes) (maclen : Z)
    : TEE_Result * bytes * Z * heap :=
  match obj_at h op with
  | Some (OpObj st) =>
      match op_key st with
      | Some k =>
          if decide (maclen < Sha1.SHA1_HASH_SIZE)
          then (TEE_ERROR_SHORT_BUFFER, mac, Sha1.SHA1_HASH_SIZE, h)
          else (TEE_SUCCESS, Hmac.HMAC_SHA1 k (op_data st ++ msg) ++ drop 20 mac,
                Sha1.SHA1_HASH_SIZE, set_data h op (fun _ => []))
      | None => (TEE_ERROR_BAD_STATE, mac, maclen, h)
      end
  | _ => (TEE_ERROR_BAD_STATE, mac, maclen, h)
  end.

Definition FreeOperation (h : heap) (op : Z) : heap :=
  match op, obj_at h op with Zpos p, Some (OpObj _) => del_obj h p | _, _ => h end.

Definition FreeTransientObject (h : heap) (o : Z) : heap :=
  match o, obj_at h o with Zpos p, Some (KeyObj _) => del_obj h p | _, _ => h end.

Definition heap_trace_printf (h : heap) (l : trace_line) : heap :=
  mkHeap (h_objects h) (h_capacity h) (h_trace h ++ [l]).

#[export] Instance heap_crypto : TeeCrypto heap := {|
  tee_trace := h_trace;
  trace_printf := heap_trace_printf;
  tee_handles h := kmap Zpos (kind_of <$> h_objects h);
  TEE_AllocateOperation := AllocateOperation;
  TEE_AllocateTransientObject := AllocateTransientObject;
  TEE_PopulateTransientObject := PopulateTransientObject;
  TEE_SetOperationKey := SetOperationKey;
  TEE_MACInit := MACInit;
  TEE_MACUpdate := MACUpdate;
  TEE_MACComputeFinal := MACComputeFinal;
  TEE_FreeOperation := FreeOperation;
  TEE_FreeTransientObject := FreeTransientObject |}.

(** An empty TEE with room for [n] handles. *)
Definition empty_heap (n : nat) : heap := mkHeap ∅ n [].

(** *** The handle table of a heap *)

#[export] Instance Zpos_inj : Inj eq eq Zpos.
Proof. intros ?? [=]. done. Qed.

Lemma handles_lookup (h : heap) hd : tee_handles h !! hd = kind_of <$> obj_at h hd.
Proof.
  cbn [tee_handles heap_crypto]. destruct hd as [|p|p]; simpl obj_at.
  - apply lookup_kmap_None; [apply _|]. intros i Hi. discriminate.
  - rewrite (lookup_kmap Zpos). apply lookup_fmap.
  - apply lookup_kmap_None; [apply _|]. intros i Hi. discriminate.
Qed.

Lemma set_obj_handles h p o :
  tee_handles (set_obj h p o) = <[Zpos p := kind_of o]> (tee_handles h).
Proof. cbn [tee_handles heap_crypto set_obj h_objects]. rewrite fmap_insert, kmap_insert; [done|apply _]. Qed.

Lemma del_obj_handles h p : tee_handles (del_obj h p) = delete (Zpos p) (tee_handles h).
Proof. cbn [tee_handles heap_crypto del_obj h_objects]. rewrite fmap_delete, kmap_delete; [done|apply _]. Qed.

Lemma set_obj_same_kind h p o o' :
  obj_at h (Zpos p) = Some o -> kind_of o' = kind_of o ->
  tee_handles (set_obj h p o') = tee_handles h.
Proof.
  intros Ho Hk. rewrite set_obj_handles, Hk. apply insert_id.
  by rewrite handles_lookup, Ho.
Qed.

Lemma set_data_handles h op f : tee_handles (set_data h op f) = tee_handles h.
Proof.
  unfold set_data. destruct op as [|p|p]; try done.
  destruct (obj_at h (Zpos p)) as [[]|] eqn:E; try done. by eapply set_obj_same_kind.
Qed.

Lemma allocate_spec h o : alloc_spec (kind_of o) h (allocate h o).
Proof.
  unfold allocate, alloc_spec. case_decide; [by right|left].
  split_and!; [done|done| |apply set_obj_handles].
  rewrite handles_lookup. simpl. rewrite not_elem_of_dom_1; [done|apply is_fresh].
Qed.

Lemma free_kind_spec h hd k :
  free_spec k h hd
    (match hd, obj_at h hd with
     | Zpos p, Some o => if decide (kind_of o = k) then del_obj h p else h
     | _, _ => h end).
Proof.
  unfold free_spec. rewrite handles_lookup.
  destruct hd as [|p|p]; simpl obj_at; [case_decide; [discriminate|done]| |
                                        case_decide; [discriminate|done]].
  destruct (h_objects h !! p) as [o|]; simpl; repeat case_decide; simplify_eq/=; try done.
  apply del_obj_handles.
Qed.

(** *** Steps of a successful MAC computation *)

Lemma obj_at_set_obj h p o hd :
  obj_at (set_obj h p o) hd = if decide (hd = Zpos p) then Some o else obj_at h hd.
Proof.
  destruct hd as [|q|q]; cbn [obj_at set_obj h_objects];
    [by rewrite decide_False| |by rewrite decide_False].
  destruct (decide (q = p)) as [->|Hq].
  - by rewrite decide_True, lookup_insert_eq.
  - rewrite decide_False by congruence. by rewrite lookup_insert_ne.
Qed.

Lemma obj_at_set_same h p o : obj_at (set_obj h p o) (Zpos p) = Some o.
Proof. by rewrite obj_at_set_obj, decide_True. Qed.

Lemma obj_at_set_other h p q o : q <> p -> obj_at (set_obj h p o) (Zpos q) = obj_at h (Zpos q).
Proof. intros. rewrite obj_at_set_obj, decide_False; congruence. Qed.

Lemma fresh_handle_free h : h_objects h !! fresh (dom (h_objects h)) = None.
Proof. apply not_elem_of_dom_1, is_fresh. Qed.

Lemma size_set_obj_fresh h o :
  size (h_objects (set_obj h (fresh (dom (h_objects h))) o)) = S (size (h_objects h)).
Proof. apply map_size_insert_None, fresh_handle_free. Qed.

Lemma allocate_ok h o :
  (size (h_objects h) < h_capacity h)%nat ->
  allocate h o = (TEE_SUCCESS, Zpos (fresh (dom (h_objects h))),
                  set_obj h (fresh (dom (h_objects h))) o).
Proof. intros. unfold allocate. by rewrite decide_False by lia. Qed.

Ltac obj_at_simpl :=
  repeat (rewrite obj_at_set_same || rewrite obj_at_set_other by congruence).

(** *** The capacity never changes; equal handle tables have equal sizes *)


Create Rewrite HintDb heap_cap.

Lemma AllocateOperation_capacity (h : heap) a b c : h_capacity (AllocateOperation h a b c).2 = h_capacity h.
Proof. unfold AllocateOperation, allocate. by repeat (case_match; simplify_eq/=). Qed.

Lemma AllocateTransientObject_capacity (h : heap) a b : h_capacity (AllocateTransientObject h a b).2 = h_capacity h.
Proof. unfold AllocateTransientObject, allocate. by repeat (case_match; simplify_eq/=). Qed.

Lemma PopulateTransientObject_capacity (h : heap) a attrs : h_capacity (PopulateTransientObject h a attrs).2 = h_capacity h.
Proof. unfold PopulateTransientObject. by repeat (case_match; simplify_eq/=). Qed.

Lemma SetOperationKey_capacity (h : heap) a b : h_capacity (SetOperationKey h a b).2 = h_capacity h.
Proof. unfold SetOperationKey. by repeat (case_match; simplify_eq/=). Qed.

Lemma MACInit_capacity (h : heap) a d : h_capacity (MACInit h a d) = h_capacity h.
Proof. unfold MACInit, set_data. by repeat (case_match; simplify_eq/=). Qed.

Lemma MACUpdate_capacity (h : heap) a d : h_capacity (MACUpdate h a d) = h_capacity h.
Proof. unfold MACUpdate, set_data. by repeat (case_match; simplify_eq/=). Qed.

Lemma MACComputeFinal_capacity (h : heap) a m d c : h_capacity (MACComputeFinal h a m d c).2 = h_capacity h.
Proof. unfold MACComputeFinal, set_data. by repeat (case_match; simplify_eq/=). Qed.

Lemma FreeOperation_capacity (h : heap) a : h_capacity (FreeOperation h a) = h_capacity h.
Proof. unfold FreeOperation. by repeat (case_match; simplify_eq/=). Qed.

Lemma FreeTransientObject_capacity (h : heap) a : h_capacity (FreeTransientObject h a) = h_capacity h.
Proof. unfold FreeTransientObject. by repeat (case_match; simplify_eq/=). Qed.

Lemma EMSG_capacity (h : heap) fmt args : h_capacity (EMSG h fmt args) = h_capacity h.
Proof. reflexivity. Qed.

Lemma trace_printf_capacity (h : heap) l : h_capacity (heap_trace_printf h l) = h_capacity h.
Proof. reflexivity. Qed.

#[export] Hint Rewrite EMSG_capacity trace_printf_capacity AllocateOperation_capacity AllocateTransientObject_capacity PopulateTransientObject_capacity SetOperationKey_capacity MACInit_capacity MACUpdate_capacity MACComputeFinal_capacity FreeOperation_capacity FreeTransientObject_capacity : heap_cap.

(** *** The crypto operations leave the trace as it is *)

Lemma AllocateOperation_trace (h : heap) a b c : h_trace (AllocateOperation h a b c).2 = h_trace h.
Proof. unfold AllocateOperation, allocate. by repeat (case_match; simplify_eq/=). Qed.

Lemma AllocateTransientObject_trace (h : heap) a b : h_trace (AllocateTransientObject h a b).2 = h_trace h.
Proof. unfold AllocateTransientObject, allocate. by repeat (case_match; simplify_eq/=). Qed.

Lemma PopulateTransientObject_trace (h : heap) a attrs : h_trace (PopulateTransientObject h a attrs).2 = h_trace h.
Proof. unfold PopulateTransientObject. by repeat (case_match; simplify_eq/=). Qed.

Lemma SetOperationKey_trace (h : heap) a b : h_trace (SetOperationKey h a b).2 = h_trace h.
Proof. unfold SetOperationKey. by repeat (case_match; simplify_eq/=). Qed.

Lemma MACInit_trace (h : heap) a d : h_trace (MACInit h a d) = h_trace h.
Proof. unfold MACInit, set_data. by repeat (case_match; simplify_eq/=). Qed.

Lemma MACUpdate_trace (h : heap) a d : h_trace (MACUpdate h a d) = h_trace h.
Proof. unfold MACUpdate, set_data. by repeat (case_match; simplify_eq/=). Qed.

Lemma MACComputeFinal_trace (h : heap) a m d c : h_trace (MACComputeFinal h a m d c).2 = h_trace h.
Proof. unfold MACComputeFinal, set_data. by repeat (case_match; simplify_eq/=). Qed.

Lemma FreeOperation_trace (h : heap) a : h_trace (FreeOperation h a) = h_trace h.
Proof. unfold FreeOperation. by repeat (case_match; simplify_eq/=). Qed.

Lemma FreeTransientObject_trace (h : heap) a : h_trace (FreeTransientObject h a) = h_trace h.
Proof. unfold FreeTransientObject. by repeat (case_match; simplify_eq/=). Qed.

Lemma handles_size (h1 h2 : heap) :
  tee_handles h1 = tee_handles h2 -> size (h_objects h1) = size (h_objects h2).
Proof.
  intros E. rewrite <- !size_dom. f_equal. apply set_eq. intros p. rewrite !elem_of_dom.
  pose proof (f_equal (lookup (Zpos p)) E) as Ep. rewrite !handles_lookup in Ep.
  cbn [obj_at] in Ep. destruct (h_objects h1 !! p), (h_objects h2 !! p); naive_solver.
Qed.

#[export] Instance heap_laws : TeeCryptoLaws heap.
Proof.
  split.
  - intros h. by rewrite handles_lookup.
  - intros h a m k. simpl. unfold AllocateOperation. case_decide; [apply (allocate_spec h)|by right].
  - intros h t s. simpl. unfold AllocateTransientObject. case_decide; [apply (allocate_spec h)|by right].
  - intros h o attrs. simpl. unfold PopulateTransientObject.
    destruct o as [|p|p]; try done. destruct (obj_at h (Zpos p)) as [[]|] eqn:E; try done.
    destruct attrs as [|? [|]]; try done. case_decide; [|done]. by eapply set_obj_same_kind.
  - intros h op o. simpl. unfold SetOperationKey.
    destruct op as [|p|p]; try done. destruct (obj_at h (Zpos p)) as [[]|] eqn:E; try done.
    destruct (obj_at h o) as [[]|]; try done. destruct (obj_secret _); [|done].
    case_decide; [|done]. by eapply set_obj_same_kind.
  - intros. apply set_data_handles.
  - intros. apply set_data_handles.
  - intros h op m b l. simpl. unfold MACComputeFinal.
    destruct (obj_at h op) as [[st|]|]; try done. destruct (op_key st); [|done].
    case_decide; [done|]. apply set_data_handles.
  - intros h op m b l Hl. simpl. unfold MACComputeFinal.
    destruct (obj_at h op) as [[st|]|]; try done. destruct (op_key st); [|done].
    case_decide; [done|]. cbn [fst snd].
    rewrite length_app, Hmac.length_HMAC_SHA1, length_drop.
    unfold Sha1.SHA1_HASH_SIZE in *. lia.
  - intros h op. pose proof (free_kind_spec h op KOperation) as Hf. unfold free_spec in *.
    rewrite <- Hf. simpl. unfold FreeOperation.
    destruct op as [|p|p]; try done. unfold obj_at.
    destruct (h_objects h !! p) as [[]|]; simpl; try case_decide; done.
  - intros h o. pose proof (free_kind_spec h o KObject) as Hf. unfold free_spec in *.
    rewrite <- Hf. simpl. unfold FreeTransientObject.
    destruct o as [|p|p]; try done. unfold obj_at.
    destruct (h_objects h !! p) as [[]|]; simpl; try case_decide; done.
  - done.
  - done.
  - intros. apply AllocateOperation_trace.
  - intros. apply AllocateTransientObject_trace.
  - intros. apply PopulateTransientObject_trace.
  - intros. apply SetOperationKey_trace.
  - intros. apply MACInit_trace.
  - intros. apply MACUpdate_trace.
  - intros. apply MACComputeFinal_trace.
  - intros. apply FreeOperation_trace.
  - intros. apply FreeTransientObject_trace.
Qed.

End Heap.
