(* ===== verification/Verdict.v ===== *)
(** * The verdict loop of [get_hmac]

    Lines 220-228 of [hmac_ta.c]:
<<
    params[0].value.a = 0;
    for (i = 0; i < output_len; i++) {
        if (mac[i] != output[i]) { params[0].value.a = 1; break; }
    }
>>
    [mac_compare_loop] runs the loop from index [i] for [n] more rounds and
    returns the value left in [value.a] with the number of rounds executed,
    or [None] when a read of [mac[i]] or [output[i]] is out of bounds.  The
    round count is the loop's running time: the theorem shows it is the
    position of the first differing byte plus one ([rounds]), where spec
    §9 asks a hardened verifier for a comparison whose time does not
    depend on the data. *)

From S2P Require Import Prelude.

Module Verdict.

Fixpoint mac_compare_loop (n i : nat) (mac output : bytes) : option (Z * nat) :=
  match n with
  | O => Some (0, O)
  | S n' =>
      match mac !! i, output !! i with
      | Some m, Some o =>
          if decide (m = o)
          then (fun '(v, k) => (v, S k)) <$> mac_compare_loop n' (S i) mac output
          else Some (1, 1%nat)
      | _, _ => None
      end
  end.

(** The index of the first of the [n] leading bytes where two buffers
    differ. *)
Fixpoint first_diff (n : nat) (a b : bytes) : option nat :=
  match n, a, b with
  | S n', x :: a', y :: b' => if decide (x = y) then S <$> first_diff n' a' b' else Some O
  | _, _, _ => None
  end.

(** ** Lemmas *)

Lemma mac_compare_loop_shift n i (mac output : bytes) :
  mac_compare_loop n i mac output = mac_compare_loop n 0 (drop i mac) (drop i output).
Proof.
  induction n as [|n IH] in i, mac, output |- *; [done|]. simpl.
  rewrite !lookup_drop, !Nat.add_0_r. destruct (mac !! i), (output !! i); try done.
  case_decide; [|done]. rewrite IH, (IH 1%nat), !drop_drop. do 3 f_equal; lia.
Qed.

Lemma mac_compare_loop_cons n m o (mac output : bytes) :
  mac_compare_loop (S n) 0 (m :: mac) (o :: output) =
  if decide (m = o) then (fun '(v, k) => (v, S k)) <$> mac_compare_loop n 0 mac output
  else Some (1, 1%nat).
Proof. simpl. by rewrite mac_compare_loop_shift. Qed.

(** The rounds run by the loop: up to and including the first differing
    byte, or all [n]. *)
Definition rounds (n : nat) (mac output : bytes) : nat :=
  match first_diff n mac output with Some j => S j | None => n end.

Lemma rounds_cons n m o (mac output : bytes) :
  rounds (S n) (m :: mac) (o :: output) =
  if decide (m = o) then S (rounds n mac output) else 1%nat.
Proof. unfold rounds. simpl. case_decide; [|done]. by destruct (first_diff n mac output). Qed.

Lemma mac_compare_loop_correct n (mac output : bytes) :
  (n <= length mac)%nat -> (n <= length output)%nat ->
  mac_compare_loop n 0 mac output =
    Some (if decide (take n mac = take n output) then 0 else 1, rounds n mac output).
Proof.
  induction n as [|n IH] in mac, output |- *; intros Hm Ho; [done|].
  destruct mac as [|m mac], output as [|o output]; simpl in Hm, Ho; try lia.
  rewrite mac_compare_loop_cons, rounds_cons, !firstn_cons.
  case_decide as Hmo; [subst o; rewrite IH by lia; simpl|].
  - do 2 f_equal. destruct (decide (take n mac = take n output)) as [E|E].
    + by rewrite decide_True by (by rewrite E).
    + rewrite decide_False; [done|]. by intros [=].
  - rewrite decide_False; [done|]. by intros [=].
Qed.

(** C2: the loop of [get_hmac], on a [mac] and an [output] of at least
    [output_len] bytes, reads only in bounds, leaves [value.a = 0] exactly
    when the first [output_len] bytes agree and 1 otherwise, and runs up to
    and including the first differing byte. *)
Theorem mac_compare_loop_spec n (mac output : bytes) :
  (n <= length mac)%nat -> (n <= length output)%nat ->
  mac_compare_loop n 0 mac output =
    Some (if decide (take n mac = take n output) then 0 else 1, rounds n mac output).
Proof. apply mac_compare_loop_correct. Qed.

(** ** Witnesses *)

Lemma mac_compare_loop_spec_witness :
  mac_compare_loop 3 0 [1; 2; 3] [1; 5; 3] =
    Some (if decide (take 3 [1; 2; 3] = take 3 [1; 5; 3]) then 0 else 1, rounds 3 [1; 2; 3] [1; 5; 3]).
Proof. apply mac_compare_loop_spec; simpl; lia. Defined.

End Verdict.
