(* ===== verification/HmacTa.v ===== *)
(** * The HMAC trusted application ([src/hmac/ta/hmac_ta.c])

    The TA's static variables [K]/[K_len], [input]/[input_len] and
    [output]/[output_len] are the record [ta_globals]; the TEE's crypto
    state is any [H] with a [TeeCrypto] instance.  Each C function is one
    definition, with its guards and early returns in the order of the code:
    - [hmac_sha1] (lines 49-119) with its [exit:] label [hmac_sha1_exit]
      and the [EMSG] of each failed call before it jumps there;
    - [register_shared_key], [register_message], [register_output]
      (lines 121-200): check the descriptor, check the size against the
      buffer, clear the buffer, copy, set the length;
    - [get_hmac] (lines 202-230): check the descriptor ([EMSG] on a
      mismatch), call [hmac_sha1],
      run the loop of [Verdict];
    - the entry points (lines 234-281).
    [get_hmac] reads the uninitialised stack array [mac] when [hmac_sha1]
    fails before writing it: its initial contents are an argument [mac0].
    A run that would read out of bounds is [None]. *)

From stdpp Require Import strings.
From S2P Require Import Prelude Sha1 Hmac TeeApi Verdict.

Module HmacTa.

(** ** Constants ([hmac_ta.h] and the top of [hmac_ta.c]) *)

Definition TA_HMAC_UUID : TEE_UUID :=
  mkUUID 0x584d4143 0x2d53 0x4841 [0x31; 0x20; 0x4a; 0x6f; 0x63; 0x6b; 0x65; 0x42].

Definition TA_HMAC_CMD_REGISTER_SHARED_KEY : Z := 0.
Definition TA_HMAC_CMD_REGISTER_MESSAGE : Z := 1.
Definition TA_HMAC_CMD_REGISTER_OUTPUT : Z := 2.
Definition TA_HMAC_CMD_GET_HMAC : Z := 3.

Definition SHA1_HASH_SIZE : Z := 20.
Definition MAX_KEY_SIZE : Z := 64.
Definition MIN_KEY_SIZE : Z := 10.
Definition MAX_MESSAGE_SIZE : Z := 64.
Definition MIN_MESSAGE_SIZE : Z := 64.

(** ** The TA's static state *)

Record ta_globals := mkGlobals {
  K : bytes; K_len : Z;
  input : bytes; input_len : Z;
  output : bytes; output_len : Z }.

(** Static storage starts zeroed. *)
Definition ta_globals_init : ta_globals :=
  mkGlobals (replicate 64 0) 0 (replicate 64 0) 0 (replicate 20 0) 0.

(** ** [hmac_sha1] *)

Section Adapter.
Context {H : Type} `{TeeCrypto H}.

(** The [exit:] label: free the operation if one was allocated, free the
    key object (a null handle is allowed). *)
Definition hmac_sha1_exit (res : TEE_Result) (op_handle key_handle : Z)
    (out : bytes) (outlen : Z) (h : H) : TEE_Result * option bytes * option Z * H :=
  let h := if decide (op_handle <> TEE_HANDLE_NULL) then TEE_FreeOperation h op_handle else h in
  (res, Some out, Some outlen, TEE_FreeTransientObject h key_handle).

Definition hmac_sha1 (h : H) (key : bytes) (keylen : Z) (inp : option bytes) (inlen : Z)
    (out : option bytes) (outlen : option Z) : TEE_Result * option bytes * option Z * H :=
  if decide (keylen < MIN_KEY_SIZE \/ keylen > MAX_KEY_SIZE)
  then (TEE_ERROR_BAD_PARAMETERS, out, outlen, h) else
  match inp, out, outlen with
  | Some inb, Some outb, Some ol =>
    let '(res, op_handle, h) :=
      TEE_AllocateOperation h TEE_ALG_HMAC_SHA1 TEE_MODE_MAC (keylen * 8) in
    if decide (res <> TEE_SUCCESS)
    then hmac_sha1_exit res op_handle TEE_HANDLE_NULL outb ol (EMSG h "0x%08x"%string [res]) else
    let '(res, key_handle, h) :=
      TEE_AllocateTransientObject h TEE_TYPE_HMAC_SHA1 (keylen * 8) in
    if decide (res <> TEE_SUCCESS)
    then hmac_sha1_exit res op_handle key_handle outb ol (EMSG h "0x%08x"%string [res]) else
    let attr := TEE_InitRefAttribute TEE_ATTR_SECRET_VALUE key keylen in
    let '(res, h) := TEE_PopulateTransientObject h key_handle [attr] in
    if decide (res <> TEE_SUCCESS)
    then hmac_sha1_exit res op_handle key_handle outb ol (EMSG h "0x%08x"%string [res]) else
    let '(res, h) := TEE_SetOperationKey h op_handle key_handle in
    if decide (res <> TEE_SUCCESS)
    then hmac_sha1_exit res op_handle key_handle outb ol (EMSG h "0x%08x"%string [res]) else
    let h := TEE_MACInit h op_handle [] in
    let h := TEE_MACUpdate h op_handle (take (Z.to_nat inlen) inb) in
    let '(res, outb, ol, h) := TEE_MACComputeFinal h op_handle [] outb ol in
    hmac_sha1_exit res op_handle key_handle outb ol h
  | _, _, _ => (TEE_ERROR_BAD_PARAMETERS, out, outlen, h)
  end.
End Adapter.

(** ** The register handlers *)

Definition param0 (params : list TEE_Param) : TEE_Param := default TP_none (params !! 0%nat).

Definition exp_register_types : Z :=
  TEE_PARAM_TYPES TEE_PARAM_TYPE_MEMREF_INPUT TEE_PARAM_TYPE_NONE
                  TEE_PARAM_TYPE_NONE TEE_PARAM_TYPE_NONE.

Definition register_shared_key (param_types : Z) (params : list TEE_Param) (g : ta_globals)
    : TEE_Result * ta_globals :=
  if decide (param_types <> exp_register_types) then (TEE_ERROR_BAD_PARAMETERS, g) else
  if decide (memref_size (param0 params) > MAX_KEY_SIZE) then (TEE_ERROR_BAD_PARAMETERS, g) else
  let k := memset0 (Z.to_nat MAX_KEY_SIZE) in
  let k := memcpy k (memref_buffer (param0 params)) (Z.to_nat (memref_size (param0 params))) in
  (TEE_SUCCESS, mkGlobals k (memref_size (param0 params))
                          (input g) (input_len g) (output g) (output_len g)).

Definition register_message (param_types : Z) (params : list TEE_Param) (g : ta_globals)
    : TEE_Result * ta_globals :=
  if decide (param_types <> exp_register_types) then (TEE_ERROR_BAD_PARAMETERS, g) else
  if decide (memref_size (param0 params) > MAX_MESSAGE_SIZE) then (TEE_ERROR_BAD_PARAMETERS, g) else
  let i := memset0 (Z.to_nat MAX_MESSAGE_SIZE) in
  let i := memcpy i (memref_buffer (param0 params)) (Z.to_nat (memref_size (param0 params))) in
  (TEE_SUCCESS, mkGlobals (K g) (K_len g) i (memref_size (param0 params))
                          (output g) (output_len g)).

Definition register_output (param_types : Z) (params : list TEE_Param) (g : ta_globals)
    : TEE_Result * ta_globals :=
  if decide (param_types <> exp_register_types) then (TEE_ERROR_BAD_PARAMETERS, g) else
  if decide (memref_size (param0 params) > SHA1_HASH_SIZE) then (TEE_ERROR_BAD_PARAMETERS, g) else
  let o := memset0 (Z.to_nat SHA1_HASH_SIZE) in
  let o := memcpy o (memref_buffer (param0 params)) (Z.to_nat (memref_size (param0 params))) in
  (TEE_SUCCESS, mkGlobals (K g) (K_len g) (input g) (input_len g) o (memref_size (param0 params))).

(** ** [get_hmac] and the entry points *)

Definition exp_get_hmac_types : Z :=
  TEE_PARAM_TYPES TEE_PARAM_TYPE_VALUE_OUTPUT TEE_PARAM_TYPE_NONE
                  TEE_PARAM_TYPE_NONE TEE_PARAM_TYPE_NONE.

Section Commands.
Context {H : Type} `{TeeCrypto H}.

(** [mac0] is the content of the uninitialised array [mac]. *)
Definition get_hmac (param_types : Z) (params : list TEE_Param) (g : ta_globals) (h : H)
    (mac0 : bytes) : option (TEE_Result * list TEE_Param * H) :=
  if decide (param_types <> exp_get_hmac_types)
  then Some (TEE_ERROR_BAD_PARAMETERS, params,
             EMSG h "Expected: 0x%x, got: 0x%x"%string [exp_get_hmac_types; param_types]) else
  let '(res, mac, _, h) :=
    hmac_sha1 h (K g) (K_len g) (Some (input g)) (input_len g) (Some mac0) (Some SHA1_HASH_SIZE) in
  let mac := default mac0 mac in
  let params := alter (set_value_a 0) 0%nat params in
  match Verdict.mac_compare_loop (Z.to_nat (output_len g)) 0 mac (output g) with
  | Some (v, _) =>
      Some (res, if decide (v = 1) then alter (set_value_a 1) 0%nat params else params, h)
  | None => None
  end.

Definition TA_CreateEntryPoint : TEE_Result := TEE_SUCCESS.

Definition TA_OpenSessionEntryPoint (param_types : Z) : TEE_Result :=
  if decide (param_types <> TEE_PARAM_TYPES TEE_PARAM_TYPE_NONE TEE_PARAM_TYPE_NONE
                                            TEE_PARAM_TYPE_NONE TEE_PARAM_TYPE_NONE)
  then TEE_ERROR_BAD_PARAMETERS else TEE_SUCCESS.

(** The switch on [cmd_id]; the state is the TA's globals with the TEE. *)
Definition TA_InvokeCommandEntryPoint (cmd_id param_types : Z) (params : list TEE_Param)
    (s : ta_globals * H) (mac0 : bytes)
    : option (TEE_Result * list TEE_Param * (ta_globals * H)) :=
  let '(g, h) := s in
  if decide (cmd_id = TA_HMAC_CMD_REGISTER_SHARED_KEY) then
    let '(r, g) := register_shared_key param_types params g in Some (r, params, (g, h))
  else if decide (cmd_id = TA_HMAC_CMD_REGISTER_MESSAGE) then
    let '(r, g) := register_message param_types params g in Some (r, params, (g, h))
  else if decide (cmd_id = TA_HMAC_CMD_REGISTER_OUTPUT) then
    let '(r, g) := register_output param_types params g in Some (r, params, (g, h))
  else if decide (cmd_id = TA_HMAC_CMD_GET_HMAC) then
    (fun '(r, ps, h) => (r, ps, (g, h))) <$> get_hmac param_types params g h mac0
  else Some (TEE_ERROR_BAD_PARAMETERS, params, s).
End Commands.

(** ** The buffer invariant *)

(** A buffer of [cap] bytes whose logical length is [len]: the bytes past
    [len] are zero (the [memset] before each [memcpy]). *)
Definition slot_wf (cap : nat) (buf : bytes) (len : Z) : Prop :=
  length buf = cap /\ 0 <= len <= Z.of_nat cap /\ bytes_ok buf /\
  drop (Z.to_nat len) buf = replicate (cap - Z.to_nat len) 0.

Definition globals_wf (g : ta_globals) : Prop :=
  slot_wf 64 (K g) (K_len g) /\ slot_wf 64 (input g) (input_len g) /\
  slot_wf 20 (output g) (output_len g).

#[export] Instance slot_wf_dec cap buf len : Decision (slot_wf cap buf len).
Proof. unfold slot_wf. apply _. Defined.

#[export] Instance globals_wf_dec g : Decision (globals_wf g).
Proof. unfold globals_wf. apply _. Defined.

(** The memory references the TEE core passes hold bytes. *)
Definition params_ok (params : list TEE_Param) : Prop :=
  Forall (fun p => bytes_ok (memref_buffer p)) params.

(** ** The crypto adapter releases what it allocates *)

Section NoLeak.
Context {H : Type} `{TeeCryptoLaws H}.

Lemma free_object_null (h : H) :
  tee_handles (TEE_FreeTransientObject h TEE_HANDLE_NULL) = tee_handles h.
Proof.
  pose proof (free_object_spec h TEE_HANDLE_NULL) as F. unfold free_spec in F.
  rewrite F. case_decide as Hd; [|done]. by rewrite null_not_allocated in Hd.
Qed.

Lemma free_at (k : handle_kind) (free : H -> Z -> H) (h : H) hd :
  (forall h hd, free_spec k h hd (free h hd)) ->
  tee_handles h !! hd = Some k -> tee_handles (free h hd) = delete hd (tee_handles h).
Proof. intros F Hk. pose proof (F h hd) as F'. unfold free_spec in F'. by rewrite F', decide_True. Qed.

(** The three ways [hmac_sha1] reaches [exit:]: nothing allocated; only
    the operation; the operation and the key object. *)
Definition exit_pre (h0 h : H) (op kh : Z) : Prop :=
  (op = TEE_HANDLE_NULL /\ kh = TEE_HANDLE_NULL /\ tee_handles h = tee_handles h0) \/
  (op <> TEE_HANDLE_NULL /\ tee_handles h0 !! op = None /\ kh = TEE_HANDLE_NULL /\
     tee_handles h = <[op := KOperation]> (tee_handles h0)) \/
  (op <> TEE_HANDLE_NULL /\ tee_handles h0 !! op = None /\
     <[op := KOperation]> (tee_handles h0) !! kh = None /\
     tee_handles h = <[kh := KObject]> (<[op := KOperation]> (tee_handles h0))).

Lemma EMSG_handles (h : H) fmt args : tee_handles (EMSG h fmt args) = tee_handles h.
Proof. apply trace_handles. Qed.

Lemma exit_pre_EMSG (h0 h : H) op kh fmt args :
  exit_pre h0 h op kh -> exit_pre h0 (EMSG h fmt args) op kh.
Proof. unfold exit_pre. by rewrite EMSG_handles. Qed.

Lemma hmac_sha1_exit_handles (h0 h : H) res op kh out ol :
  exit_pre h0 h op kh -> tee_handles (hmac_sha1_exit res op kh out ol h).2 = tee_handles h0.
Proof.
  unfold hmac_sha1_exit. cbn [snd].
  intros [(-> & -> & Hh)|[(Hop & Hop0 & -> & Hh)|(Hop & Hop0 & Hkh0 & Hh)]].
  - rewrite decide_False by (intros Hn; by apply Hn). by rewrite free_object_null.
  - rewrite decide_True by done. rewrite free_object_null.
    rewrite (free_at KOperation) by (apply free_operation_spec || by rewrite Hh, lookup_insert_eq).
    by rewrite Hh, delete_insert_id.
  - assert (kh <> op) by (intros ->; by rewrite lookup_insert_eq in Hkh0).
    assert (Hkh1 : tee_handles h0 !! kh = None) by by rewrite lookup_insert_ne in Hkh0.
    rewrite decide_True by done.
    assert (E1 : tee_handles (TEE_FreeOperation h op) = delete op (tee_handles h)).
    { apply (free_at KOperation); [apply free_operation_spec|].
      by rewrite Hh, lookup_insert_ne, lookup_insert_eq. }
    rewrite (free_at KObject); [|apply free_object_spec|].
    + rewrite E1, Hh, (delete_insert_ne _ op kh) by congruence.
      by rewrite (delete_insert_id _ op), (delete_insert_id _ kh).
    + by rewrite E1, lookup_delete_ne, Hh, lookup_insert_eq.
Qed.

Lemma hmac_sha1_frees_all (h : H) key keylen inp inlen out outlen :
  tee_handles (hmac_sha1 h key keylen inp inlen out outlen).2 = tee_handles h.
Proof.
  unfold hmac_sha1. case_decide; [done|].
  destruct inp as [inb|], out as [outb|], outlen as [ol|]; try done.
  pose proof (alloc_operation_spec h TEE_ALG_HMAC_SHA1 TEE_MODE_MAC (keylen * 8)) as Hop.
  destruct (TEE_AllocateOperation _ _ _ _) as [[r1 op] h1].
  case_decide.
  { apply hmac_sha1_exit_handles, exit_pre_EMSG. left. destruct Hop as [(?&?&?&?)|(?&?&?)]; [congruence|done]. }
  destruct Hop as [(_ & Hop & Hop0 & Hh1)|(?&?&?)]; [|congruence].
  pose proof (alloc_object_spec h1 TEE_TYPE_HMAC_SHA1 (keylen * 8)) as Hkh.
  destruct (TEE_AllocateTransientObject _ _ _) as [[r2 kh] h2].
  case_decide.
  { apply hmac_sha1_exit_handles, exit_pre_EMSG. right; left.
    destruct Hkh as [(?&?&?&?)|(? & -> & Hh2)]; [congruence|]. by rewrite Hh2. }
  destruct Hkh as [(_ & Hkh & Hkh0 & Hh2)|(?&?&?)]; [|congruence].
  assert (Hpre : forall h', tee_handles h' = tee_handles h2 -> exit_pre h h' op kh).
  { intros h' E. right; right. rewrite E, Hh2, <- Hh1. done. }
  pose proof (populate_handles h2 kh [TEE_InitRefAttribute TEE_ATTR_SECRET_VALUE key keylen]) as P3.
  destruct (TEE_PopulateTransientObject _ _ _) as [r3 h3]. cbn [snd] in P3.
  case_decide; [by apply hmac_sha1_exit_handles, exit_pre_EMSG, Hpre|].
  pose proof (set_key_handles h3 op kh) as P4.
  destruct (TEE_SetOperationKey _ _ _) as [r4 h4]. cbn [snd] in P4.
  case_decide; [apply hmac_sha1_exit_handles, exit_pre_EMSG, Hpre; congruence|].
  pose proof (mac_final_handles (TEE_MACUpdate (TEE_MACInit h4 op []) op
                (take (Z.to_nat inlen) inb)) op [] outb ol) as P5.
  destruct (TEE_MACComputeFinal _ _ _ _ _) as [[[r5 outb'] ol'] h5]. cbn [snd] in P5.
  apply hmac_sha1_exit_handles, Hpre.
  by rewrite P5, mac_update_handles, mac_init_handles, P4, P3.
Qed.

(** C4: on every path, success or failure, [hmac_sha1] leaves the TEE's
    table of allocated operations and key objects as it found it: what it
    allocates it frees (spec §4.3), for any implementation of the
    Internal API that satisfies [TeeCryptoLaws]. *)
Theorem hmac_sha1_handles (h : H) key keylen inp inlen out outlen :
  tee_handles (hmac_sha1 h key keylen inp inlen out outlen).2 = tee_handles h.
Proof. apply hmac_sha1_frees_all. Qed.

(** *** What [hmac_sha1] logs *)

Lemma hmac_sha1_exit_trace (h : H) res op kh out ol :
  tee_trace (hmac_sha1_exit res op kh out ol h).2 = tee_trace h.
Proof.
  unfold hmac_sha1_exit. cbn [snd]. rewrite free_object_trace.
  case_decide; [apply free_operation_trace|done].
Qed.

(** The line [EMSG("0x%08x", res)] of a failed call. *)
Definition error_line (res : TEE_Result) : trace_line := mkTrace TRACE_ERROR "0x%08x" [res].

Lemma exit_logged (h : H) res op kh out ol :
  res <> TEE_SUCCESS ->
  let r := hmac_sha1_exit res op kh out ol (EMSG h "0x%08x" [res]) in
  r.1.1.1 <> TEE_SUCCESS /\ tee_trace r.2 = tee_trace h ++ [error_line r.1.1.1].
Proof. intros Hr. cbn zeta. rewrite hmac_sha1_exit_trace. split; [done|apply trace_printf_trace]. Qed.

Lemma hmac_sha1_logs_failure (h : H) key keylen inp inlen out outlen :
  let r := hmac_sha1 h key keylen inp inlen out outlen in
  tee_trace r.2 = tee_trace h \/
  (r.1.1.1 <> TEE_SUCCESS /\ tee_trace r.2 = tee_trace h ++ [error_line r.1.1.1]).
Proof.
  cbn zeta. unfold hmac_sha1. case_decide; [by left|].
  destruct inp as [inb|], out as [outb|], outlen as [ol|]; try by left.
  pose proof (alloc_operation_trace h TEE_ALG_HMAC_SHA1 TEE_MODE_MAC (keylen * 8)) as T1.
  destruct (TEE_AllocateOperation _ _ _ _) as [[r1 op] h1]. cbn [snd] in T1.
  case_decide; [right; rewrite <- T1; by apply exit_logged|].
  pose proof (alloc_object_trace h1 TEE_TYPE_HMAC_SHA1 (keylen * 8)) as T2.
  destruct (TEE_AllocateTransientObject _ _ _) as [[r2 kh] h2]. cbn [snd] in T2.
  case_decide; [right; rewrite <- T1, <- T2; by apply exit_logged|].
  pose proof (populate_trace h2 kh [TEE_InitRefAttribute TEE_ATTR_SECRET_VALUE key keylen]) as T3.
  destruct (TEE_PopulateTransientObject _ _ _) as [r3 h3]. cbn [snd] in T3.
  case_decide; [right; rewrite <- T1, <- T2, <- T3; by apply exit_logged|].
  pose proof (set_key_trace h3 op kh) as T4.
  destruct (TEE_SetOperationKey _ _ _) as [r4 h4]. cbn [snd] in T4.
  case_decide; [right; rewrite <- T1, <- T2, <- T3, <- T4; by apply exit_logged|].
  pose proof (mac_final_trace (TEE_MACUpdate (TEE_MACInit h4 op []) op
                (take (Z.to_nat inlen) inb)) op [] outb ol) as T5.
  destruct (TEE_MACComputeFinal _ _ _ _ _) as [[[r5 outb'] ol'] h5]. cbn [snd] in T5.
  left. by rewrite hmac_sha1_exit_trace, T5, mac_update_trace, mac_init_trace, T4, T3, T2, T1.
Qed.

(** C22: what [hmac_sha1] logs (spec §7): at most one line, the
    [EMSG("0x%08x", res)] of the very code it returns, and only when that
    code is a failure: a primitive's error is logged as it is returned,
    and a success leaves the TEE's trace as it was. *)
Theorem hmac_sha1_logs (h : H) key keylen inp inlen out outlen :
  let r := hmac_sha1 h key keylen inp inlen out outlen in
  tee_trace r.2 = tee_trace h \/
  (r.1.1.1 <> TEE_SUCCESS /\ tee_trace r.2 = tee_trace h ++ [error_line r.1.1.1]).
Proof. apply hmac_sha1_logs_failure. Qed.
End NoLeak.

(** ** The register handlers *)

Lemma memcpy_slot (cap : nat) (buf : bytes) :
  bytes_ok buf -> (length buf <= cap)%nat ->
  slot_wf cap (memcpy (memset0 cap) buf (Z.to_nat (Z.of_nat (length buf))))
              (Z.of_nat (length buf)) /\
  take (Z.to_nat (Z.of_nat (length buf))) (memcpy (memset0 cap) buf (Z.to_nat (Z.of_nat (length buf)))) = buf.
Proof.
  intros Hok Hl. rewrite Nat2Z.id, memcpy_zero_full by done.
  split; [|by rewrite take_app_length].
  unfold slot_wf. rewrite length_app, length_replicate, Nat2Z.id, drop_app_length.
  split_and!; try lia; [|done]. apply bytes_ok_app. auto with tee.
Qed.

(** The shape of the three register handlers: success exactly when the
    descriptor is one input buffer and the buffer fits; then the slot holds
    the buffer; otherwise [TEE_ERROR_BAD_PARAMETERS] and no change. *)
Definition register_post (cap : nat) (slot : ta_globals -> bytes) (len : ta_globals -> Z)
    (others : ta_globals -> ta_globals -> Prop)
    (pt : Z) (params : list TEE_Param) (g : ta_globals) (r : TEE_Result * ta_globals) : Prop :=
  let buf := memref_buffer (param0 params) in
  let '(res, g') := r in
  (res = TEE_SUCCESS <-> pt = exp_register_types /\ (length buf <= cap)%nat) /\
  (res = TEE_SUCCESS ->
     take (Z.to_nat (len g')) (slot g') = buf /\ len g' = Z.of_nat (length buf) /\ others g g') /\
  (res <> TEE_SUCCESS -> res = TEE_ERROR_BAD_PARAMETERS /\ g' = g).

Lemma memcpy_take (cap : nat) (buf : bytes) :
  (length buf <= cap)%nat ->
  take (Z.to_nat (Z.of_nat (length buf))) (memcpy (memset0 cap) buf (Z.to_nat (Z.of_nat (length buf)))) = buf.
Proof. intros. rewrite Nat2Z.id, memcpy_zero_full by done. by rewrite take_app_length. Qed.

(** The body the three handlers share, with [upd] storing the cleared and
    filled buffer and its length into the right slot. *)
Lemma register_shape (cap : Z) slot len others pt params g (upd : bytes -> Z -> ta_globals) :
  0 <= cap ->
  (forall b l, slot (upd b l) = b /\ len (upd b l) = l /\ others g (upd b l)) ->
  register_post (Z.to_nat cap) slot len others pt params g
    (if decide (pt <> exp_register_types) then (TEE_ERROR_BAD_PARAMETERS, g) else
     if decide (memref_size (param0 params) > cap) then (TEE_ERROR_BAD_PARAMETERS, g) else
     (TEE_SUCCESS, upd (memcpy (memset0 (Z.to_nat cap)) (memref_buffer (param0 params))
                               (Z.to_nat (memref_size (param0 params))))
                       (memref_size (param0 params)))).
Proof.
  intros Hcap Hupd. unfold register_post, memref_size. cbv zeta.
  case_decide as Hpt.
  { refine (conj (conj _ _) (conj _ _)); [discriminate|tauto|discriminate|done]. }
  case_decide as Hs.
  { refine (conj (conj _ _) (conj _ _)); [discriminate|lia|discriminate|done]. }
  edestruct Hupd as (E1 & E2 & E3). rewrite E1, E2.
  refine (conj (conj _ _) (conj _ _)); [intros _; split; [done|lia]|done| |done].
  intros _. split_and!; [apply memcpy_take; lia|done|done].
Qed.

(** C5: [register_shared_key] stores any key of at most [MAX_KEY_SIZE]
    bytes, and rejects a wrong descriptor or a longer key without changing
    the state.  No lower bound is checked: keys of 0 to 9 bytes are
    accepted. *)
Theorem register_shared_key_spec pt params g :
  register_post (Z.to_nat MAX_KEY_SIZE) K K_len
    (fun g g' => input g' = input g /\ input_len g' = input_len g /\
                 output g' = output g /\ output_len g' = output_len g)
    pt params g (register_shared_key pt params g).
Proof.
  apply (register_shape MAX_KEY_SIZE K K_len _ pt params g
           (fun k l => mkGlobals k l (input g) (input_len g) (output g) (output_len g)));
    [done|done].
Qed.

(** C6: [register_message] stores any message of at most
    [MAX_MESSAGE_SIZE] bytes (the declared [MIN_MESSAGE_SIZE] of 64 is not
    enforced), and rejects a wrong descriptor or a longer message without
    changing the state. *)
Theorem register_message_spec pt params g :
  register_post (Z.to_nat MAX_MESSAGE_SIZE) input input_len
    (fun g g' => K g' = K g /\ K_len g' = K_len g /\
                 output g' = output g /\ output_len g' = output_len g)
    pt params g (register_message pt params g).
Proof.
  apply (register_shape MAX_MESSAGE_SIZE input input_len _ pt params g
           (fun i l => mkGlobals (K g) (K_len g) i l (output g) (output_len g))); [done|done].
Qed.

(** C7: [register_output] stores any expected tag of at most
    [SHA1_HASH_SIZE] bytes, and rejects a wrong descriptor or a longer tag
    without changing the state. *)
Theorem register_output_spec pt params g :
  register_post (Z.to_nat SHA1_HASH_SIZE) output output_len
    (fun g g' => K g' = K g /\ K_len g' = K_len g /\
                 input g' = input g /\ input_len g' = input_len g)
    pt params g (register_output pt params g).
Proof.
  apply (register_shape SHA1_HASH_SIZE output output_len _ pt params g
           (fun o l => mkGlobals (K g) (K_len g) (input g) (input_len g) o l)); [done|done].
Qed.

(** ** The invariant *)

Lemma param0_ok params : params_ok params -> bytes_ok (memref_buffer (param0 params)).
Proof. intros Hp. unfold param0. destruct Hp; simpl; [constructor|done]. Qed.

Lemma register_slot_wf (cap : Z) params :
  params_ok params -> 0 <= cap -> ~ memref_size (param0 params) > cap ->
  slot_wf (Z.to_nat cap)
    (memcpy (memset0 (Z.to_nat cap)) (memref_buffer (param0 params))
            (Z.to_nat (memref_size (param0 params))))
    (memref_size (param0 params)).
Proof.
  intros Hp Hc Hs. unfold memref_size in *.
  apply memcpy_slot; [by apply param0_ok|lia].
Qed.

Lemma register_shared_key_wf pt params g :
  globals_wf g -> params_ok params -> globals_wf (register_shared_key pt params g).2.
Proof.
  intros (? & ? & ?) Hp. unfold register_shared_key.
  repeat case_decide; try done. split_and!; try done. by apply (register_slot_wf MAX_KEY_SIZE).
Qed.

Lemma register_message_wf pt params g :
  globals_wf g -> params_ok params -> globals_wf (register_message pt params g).2.
Proof.
  intros (? & ? & ?) Hp. unfold register_message.
  repeat case_decide; try done. split_and!; try done. by apply (register_slot_wf MAX_MESSAGE_SIZE).
Qed.

Lemma register_output_wf pt params g :
  globals_wf g -> params_ok params -> globals_wf (register_output pt params g).2.
Proof.
  intros (? & ? & ?) Hp. unfold register_output.
  repeat case_decide; try done. split_and!; try done. by apply (register_slot_wf SHA1_HASH_SIZE).
Qed.

Lemma globals_init_wf : globals_wf ta_globals_init.
Proof. vm_compute. split_and!; try done; repeat constructor; discriminate. Qed.

Section Invoke.
Context {H : Type} `{TeeCrypto H}.

(** How [TA_InvokeCommandEntryPoint] relates the globals before and after:
    [get_hmac] leaves them; a register command is its handler. *)
Lemma invoke_globals cmd pt params g h mac0 r ps g' h' :
  TA_InvokeCommandEntryPoint cmd pt params (g, h) mac0 = Some (r, ps, (g', h')) ->
  g' = g \/ (r, g') = register_shared_key pt params g \/
  (r, g') = register_message pt params g \/ (r, g') = register_output pt params g.
Proof.
  unfold TA_InvokeCommandEntryPoint.
  repeat case_decide;
    try (destruct (register_shared_key _ _ _) eqn:?) ;
    try (destruct (register_message _ _ _) eqn:?);
    try (destruct (register_output _ _ _) eqn:?);
    try (destruct (get_hmac _ _ _ _ _) as [[[??]?]|]); intros; simplify_eq/=; auto.
Qed.

(** C8: every command keeps the buffer invariant: each buffer keeps its
    capacity, its length stays within it, and the bytes past the length
    are zero. *)
Theorem invoke_preserves_wf cmd pt params g h mac0 r ps g' h' :
  globals_wf g -> params_ok params ->
  TA_InvokeCommandEntryPoint cmd pt params (g, h) mac0 = Some (r, ps, (g', h')) ->
  globals_wf g'.
Proof.
  intros Hg Hp E. apply invoke_globals in E as [->|[E|[E|E]]]; [done| | |].
  - pose proof (register_shared_key_wf pt params g Hg Hp) as W. by rewrite <- E in W.
  - pose proof (register_message_wf pt params g Hg Hp) as W. by rewrite <- E in W.
  - pose proof (register_output_wf pt params g Hg Hp) as W. by rewrite <- E in W.
Qed.

(** C9: validate-then-commit: a command that fails leaves the TA's
    buffers exactly as they were (spec §3, §7). *)
Theorem invoke_error_unchanged cmd pt params g h mac0 r ps g' h' :
  TA_InvokeCommandEntryPoint cmd pt params (g, h) mac0 = Some (r, ps, (g', h')) ->
  r <> TEE_SUCCESS -> g' = g.
Proof.
  intros E Hr. apply invoke_globals in E as [->|[E|[E|E]]]; [done| | |];
    revert E; unfold register_shared_key, register_message, register_output;
    repeat case_decide; intros E; simplify_eq; done.
Qed.

End Invoke.

(** ** [get_hmac] reads in bounds *)

Section Safety.
Context {H : Type} `{TeeCryptoLaws H}.

(** Whatever path [hmac_sha1] takes, the array [mac] keeps its size. *)
Lemma hmac_sha1_out (h : H) key keylen inp inlen (mac0 : bytes) ol :
  (Z.to_nat ol <= length mac0)%nat ->
  exists mac, (hmac_sha1 h key keylen inp inlen (Some mac0) (Some ol)).1.1.2 = Some mac /\
              length mac = length mac0.
Proof.
  intros Hl. unfold hmac_sha1, hmac_sha1_exit. case_decide; [eauto|].
  destruct inp; [|eauto].
  destruct (TEE_AllocateOperation _ _ _ _) as [[??]?]; case_decide; [eauto|].
  destruct (TEE_AllocateTransientObject _ _ _) as [[??]?]; case_decide; [eauto|].
  destruct (TEE_PopulateTransientObject _ _ _) as [??]; case_decide; [eauto|].
  destruct (TEE_SetOperationKey _ _ _) as [??]; case_decide; [eauto|].
  match goal with |- context [TEE_MACComputeFinal ?a ?b ?c ?d ?e] =>
    pose proof (mac_final_length a b c d e Hl) as L;
    destruct (TEE_MACComputeFinal a b c d e) as [[[??]?]?] end.
  eauto.
Qed.

Lemma get_hmac_some pt params g (h : H) (mac0 : bytes) :
  globals_wf g -> length mac0 = 20%nat -> is_Some (get_hmac pt params g h mac0).
Proof.
  intros (_ & _ & (Ho & Hlen & _)) Hm. unfold get_hmac. case_decide; [eauto|].
  destruct (hmac_sha1_out h (K g) (K_len g) (Some (input g)) (input_len g) mac0 SHA1_HASH_SIZE)
    as (mac & Emac & Lmac); [rewrite Hm; done|].
  destruct (hmac_sha1 _ _ _ _ _ _ _) as [[[res out] ol] h'] eqn:E. simpl in Emac. subst out.
  simpl. rewrite Verdict.mac_compare_loop_correct by lia. eauto.
Qed.

(** C11: with the buffer invariant, [get_hmac] never reads [mac] or
    [output] out of bounds, whatever [hmac_sha1] returned. *)
Theorem get_hmac_safe pt params g (h : H) (mac0 : bytes) :
  globals_wf g -> length mac0 = 20%nat -> is_Some (get_hmac pt params g h mac0).
Proof. apply get_hmac_some. Qed.
End Safety.

Lemma alter_set_value_a_twice (v w : Z) (i : nat) (ps : list TEE_Param) :
  alter (set_value_a v) i (alter (set_value_a w) i ps) = alter (set_value_a v) i ps.
Proof.
  rewrite list_alter_alter_eq. apply list_alter_ext; [|done]. intros x _. by destruct x.
Qed.

(** ** The parameter array *)

(** The TEE core passes a value pair wherever the descriptor of GET_HMAC
    says [TEE_PARAM_TYPE_VALUE_OUTPUT]. *)
Lemma get_hmac_param0_value p :
  param_has_type (TEE_PARAM_TYPE_GET exp_get_hmac_types 0) p -> exists a b, p = TP_value a b.
Proof. destruct p as [buf|a b|]; vm_compute; [naive_solver|eauto|discriminate]. Qed.

Section Params.
Context {H : Type} `{TeeCrypto H}.

(** [get_hmac] returns the array it got, or that array with [value.a] of
    parameter 0 set to 0 or 1. *)
Lemma get_hmac_params pt params g (h : H) mac0 r ps h' :
  get_hmac pt params g h mac0 = Some (r, ps, h') ->
  (pt <> exp_get_hmac_types /\ ps = params) \/
  (pt = exp_get_hmac_types /\ exists v, (v = 0 \/ v = 1) /\ ps = alter (set_value_a v) 0%nat params).
Proof.
  unfold get_hmac. case_decide as Hpt; [intros [= _ <- _]; by left|].
  destruct (hmac_sha1 _ _ _ _ _ _ _) as [[[??]?]?].
  destruct (Verdict.mac_compare_loop _ _ _ _) as [[v k]|]; [|done].
  intros [= _ <- _]. right. split; [by destruct (decide (pt = exp_get_hmac_types))|].
  case_decide; [exists 1; rewrite alter_set_value_a_twice|exists 0]; naive_solver.
Qed.

Lemma invoke_params cmd pt params g (h : H) mac0 r ps s' :
  TA_InvokeCommandEntryPoint cmd pt params (g, h) mac0 = Some (r, ps, s') ->
  ps = params \/
  (pt = exp_get_hmac_types /\ exists v, (v = 0 \/ v = 1) /\ ps = alter (set_value_a v) 0%nat params).
Proof.
  unfold TA_InvokeCommandEntryPoint.
  repeat case_decide;
    try (destruct (register_shared_key _ _ _));
    try (destruct (register_message _ _ _));
    try (destruct (register_output _ _ _)); intros; simplify_eq/=; try by left.
  destruct (get_hmac pt params g h mac0) as [[[r' ps'] h']|] eqn:E; simplify_eq/=.
  apply get_hmac_params in E as [[_ ->]|?]; auto.
Qed.

(** C26: type preservation of the parameter array: when the TEE core
    passes parameters of the kinds the descriptor declares, every command
    returns them of the same kinds; in particular [get_hmac] writes
    [value.a] only into a value parameter, never over a memory
    reference. *)
Theorem invoke_preserves_params_typed cmd pt params g (h : H) mac0 r ps s' :
  params_typed pt params ->
  TA_InvokeCommandEntryPoint cmd pt params (g, h) mac0 = Some (r, ps, s') ->
  params_typed pt ps.
Proof.
  intros Ht E. apply invoke_params in E as [->|(-> & v & _ & ->)]; [done|].
  inversion Ht as [|i p0 idx rest Hp0 Hrest]; subst.
  destruct (get_hmac_param0_value p0 Hp0) as (a & b & ->).
  constructor; [exact Hp0|exact Hrest].
Qed.

(** C27: bounds of the reported verdict: a GET_HMAC with the parameters
    the core passes for its descriptor leaves in [params[0].value.a] 0 or
    1, whatever happened in [hmac_sha1], so the [uint32_t] the host prints
    with [%d] is 0 or 1. *)
Theorem get_hmac_value_range params g (h : H) mac0 r ps h' :
  params_typed exp_get_hmac_types params ->
  get_hmac exp_get_hmac_types params g h mac0 = Some (r, ps, h') ->
  value_a (param0 ps) = Some 0 \/ value_a (param0 ps) = Some 1.
Proof.
  intros Ht E. apply get_hmac_params in E as [[Hn _]|(_ & v & Hv & ->)]; [done|].
  inversion Ht as [|i p0 idx rest Hp0 Hrest]; subst.
  destruct (get_hmac_param0_value p0 Hp0) as (a & b & ->).
  destruct Hv as [-> | ->]; [by left|by right].
Qed.
End Params.

(** ** [get_hmac] with the executable Internal API *)

(** The verifier's contract (spec §4.4): 0 (match) when the first
    [output_len] bytes of HMAC-SHA1 of the stored message under the stored
    key equal the stored output, 1 (mismatch) otherwise. *)
Definition expected_verdict (g : ta_globals) : Z :=
  let tag := Hmac.HMAC_SHA1 (take (Z.to_nat (K_len g)) (K g))
                            (take (Z.to_nat (input_len g)) (input g)) in
  if decide (take (Z.to_nat (output_len g)) tag = take (Z.to_nat (output_len g)) (output g))
  then 0 else 1.

Section HeapRun.
Import Heap.

(** With a valid key and room for two handles, [hmac_sha1] gets as far
    as [TEE_MACComputeFinal], on an operation keyed with the key and fed
    the message, and having logged nothing. *)
Lemma heap_hmac_sha1_final (h : heap) key keylen inb inlen (mac0 : bytes) ol :
  MIN_KEY_SIZE <= keylen <= MAX_KEY_SIZE -> (Z.to_nat keylen <= length key)%nat ->
  (size (h_objects h) + 2 <= h_capacity h)%nat ->
  exists op kh h4 st,
    obj_at h4 op = Some (OpObj st) /\ op_key st = Some (take (Z.to_nat keylen) key) /\
    op_data st = take (Z.to_nat inlen) inb /\ h_trace h4 = h_trace h /\
    hmac_sha1 h key keylen (Some inb) inlen (Some mac0) (Some ol) =
      (let '(res, outb, ol', h5) := MACComputeFinal h4 op [] mac0 ol in
       hmac_sha1_exit res op kh outb ol' h5).
Proof.
  intros Hk Hkl Hcap. unfold MIN_KEY_SIZE, MAX_KEY_SIZE in Hk.
  unfold hmac_sha1. rewrite decide_False by (unfold MIN_KEY_SIZE, MAX_KEY_SIZE; lia).
  cbn [TEE_AllocateOperation TEE_AllocateTransientObject TEE_PopulateTransientObject
       TEE_SetOperationKey TEE_MACInit TEE_MACUpdate TEE_MACComputeFinal heap_crypto].
  assert (Hks : hmac_sha1_key_size (keylen * 8)).
  { unfold hmac_sha1_key_size. split; [lia|]. apply Z.mod_mul. lia. }
  unfold AllocateOperation. rewrite decide_True by done.
  rewrite allocate_ok by lia. rewrite decide_False by (intros Hn; by apply Hn).
  set (p1 := fresh (dom (h_objects h))).
  set (h1 := set_obj h p1 _).
  unfold AllocateTransientObject. rewrite decide_True by done.
  rewrite allocate_ok by (unfold h1, p1; rewrite size_set_obj_fresh; cbn [set_obj h_capacity]; lia).
  rewrite decide_False by (intros Hn; by apply Hn).
  set (p2 := fresh (dom (h_objects h1))).
  assert (Hp : p2 <> p1).
  { intros E. pose proof (fresh_handle_free h1) as F. fold p2 in F. rewrite E in F.
    unfold h1 in F. cbn [set_obj h_objects] in F. by rewrite lookup_insert_eq in F. }
  unfold PopulateTransientObject. obj_at_simpl.
  rewrite decide_True by (cbn; rewrite length_take; split; [done|lia]).
  rewrite decide_False by (intros Hn; by apply Hn).
  unfold SetOperationKey. unfold h1. obj_at_simpl.
  cbn [obj_secret op_maxKeySize]. rewrite decide_True by (cbn; rewrite length_take; lia).
  rewrite decide_False by (intros Hn; by apply Hn).
  unfold MACUpdate, MACInit, set_data. obj_at_simpl.
  do 4 eexists. split_and!. 5: reflexivity. 1: apply obj_at_set_same. all: simpl; done.
Qed.

Lemma heap_hmac_sha1_ok (h : heap) key keylen inb inlen (mac0 : bytes) :
  MIN_KEY_SIZE <= keylen <= MAX_KEY_SIZE -> (Z.to_nat keylen <= length key)%nat ->
  (size (h_objects h) + 2 <= h_capacity h)%nat -> length mac0 = 20%nat ->
  (hmac_sha1 h key keylen (Some inb) inlen (Some mac0) (Some SHA1_HASH_SIZE)).1 =
    (TEE_SUCCESS, Some (Hmac.HMAC_SHA1 (take (Z.to_nat keylen) key) (take (Z.to_nat inlen) inb)),
     Some SHA1_HASH_SIZE).
Proof.
  intros Hk Hkl Hcap Hm.
  destruct (heap_hmac_sha1_final h key keylen inb inlen mac0 SHA1_HASH_SIZE Hk Hkl Hcap)
    as (op & kh & h4 & st & Hst & Hkey & Hd & _ & ->).
  unfold MACComputeFinal. rewrite Hst, Hkey.
  rewrite decide_False by (unfold SHA1_HASH_SIZE, Sha1.SHA1_HASH_SIZE; lia).
  unfold hmac_sha1_exit. cbn [fst]. rewrite Hd.
  rewrite (drop_ge mac0) by lia. by rewrite !app_nil_r.
Qed.

(** C16: spec §7 has a primitive's failure logged where it occurs, but
    [hmac_sha1] logs no failure of [TEE_MACComputeFinal]: with a valid key
    and room in the TEE, an output length below the 20 bytes of a SHA-1
    tag makes it return [TEE_ERROR_SHORT_BUFFER], with both handles freed
    and the TEE's trace as it was. *)
Theorem hmac_sha1_final_failure_unlogged (h : heap) key keylen inb inlen (mac0 : bytes) ol :
  MIN_KEY_SIZE <= keylen <= MAX_KEY_SIZE -> (Z.to_nat keylen <= length key)%nat ->
  (size (h_objects h) + 2 <= h_capacity h)%nat -> ol < SHA1_HASH_SIZE ->
  let r := hmac_sha1 h key keylen (Some inb) inlen (Some mac0) (Some ol) in
  r.1.1.1 = TEE_ERROR_SHORT_BUFFER /\ tee_trace r.2 = tee_trace h /\ tee_handles r.2 = tee_handles h.
Proof.
  intros Hk Hkl Hcap Hol. cbn zeta.
  split; [|split; [|apply hmac_sha1_frees_all]];
    destruct (heap_hmac_sha1_final h key keylen inb inlen mac0 ol Hk Hkl Hcap)
      as (op & kh & h4 & st & Hst & Hkey & _ & Ht & ->);
    unfold MACComputeFinal; rewrite Hst, Hkey;
    rewrite decide_True by (unfold SHA1_HASH_SIZE, Sha1.SHA1_HASH_SIZE in *; lia); [done|].
  by rewrite hmac_sha1_exit_trace.
Qed.

Lemma heap_hmac_sha1_capacity (h : heap) key keylen inp inlen out outlen :
  h_capacity (hmac_sha1 h key keylen inp inlen out outlen).2 = h_capacity h.
Proof.
  unfold hmac_sha1, hmac_sha1_exit.
  cbn [TEE_AllocateOperation TEE_AllocateTransientObject TEE_PopulateTransientObject
       TEE_SetOperationKey TEE_MACInit TEE_MACUpdate TEE_MACComputeFinal
       TEE_FreeOperation TEE_FreeTransientObject heap_crypto].
  repeat match goal with
  | |- context [let '(_, _) := ?x in _] => let E := fresh "E" in destruct x eqn:E
  | |- context [if decide ?P then _ else _] => case_decide
  | |- context [match ?x with Some _ => _ | None => _ end] => destruct x
  end; simpl; try done.
  all: repeat match goal with
  | E : ?f = (_, ?h') |- _ => apply (f_equal (fun r => h_capacity (snd r))) in E; simpl in E
  end.
  all: autorewrite with heap_cap in *; congruence.
Qed.

Lemma get_hmac_heap_run g (h : heap) params (mac0 : bytes) :
  globals_wf g -> MIN_KEY_SIZE <= K_len g ->
  (size (h_objects h) + 2 <= h_capacity h)%nat -> length mac0 = 20%nat ->
  exists h', get_hmac exp_get_hmac_types params g h mac0 =
               Some (TEE_SUCCESS, alter (set_value_a (expected_verdict g)) 0%nat params, h') /\
             tee_handles h' = tee_handles h /\ h_capacity h' = h_capacity h.
Proof.
  intros (HK & _ & (Ho & Hol & _)) Hmin Hcap Hm. destruct HK as (HKl & HKlen & _).
  unfold get_hmac. rewrite decide_False by (intros Hn; by apply Hn).
  pose proof (heap_hmac_sha1_ok h (K g) (K_len g) (input g) (input_len g) mac0) as Hok.
  pose proof (hmac_sha1_frees_all h (K g) (K_len g) (Some (input g)) (input_len g)
                (Some mac0) (Some SHA1_HASH_SIZE)) as Hh.
  pose proof (heap_hmac_sha1_capacity h (K g) (K_len g) (Some (input g)) (input_len g)
                (Some mac0) (Some SHA1_HASH_SIZE)) as Hc.
  destruct (hmac_sha1 _ _ _ _ _ _ _) as [[[res out] ol] h'].
  cbn [fst snd] in Hok, Hh, Hc.
  specialize (Hok ltac:(unfold MAX_KEY_SIZE; lia) ltac:(lia) Hcap Hm). simplify_eq.
  exists h'. split_and!; [|done|done]. simpl.
  rewrite Verdict.mac_compare_loop_correct
    by (rewrite ?Hmac.length_HMAC_SHA1; lia).
  unfold expected_verdict.
  repeat case_decide; simplify_eq; try done. by rewrite alter_set_value_a_twice.
Qed.

(** C1: with a TEE that has room for the two handles, a GET_HMAC with the
    right descriptor and a registered key of at least [MIN_KEY_SIZE]
    bytes succeeds and writes into [params[0].value.a] the verdict of the
    contract [expected_verdict]; the TEE ends with the same handles and
    capacity. *)
Theorem get_hmac_heap_spec g (h : heap) params (mac0 : bytes) :
  globals_wf g -> MIN_KEY_SIZE <= K_len g ->
  (size (h_objects h) + 2 <= h_capacity h)%nat -> length mac0 = 20%nat ->
  exists h', get_hmac exp_get_hmac_types params g h mac0 =
               Some (TEE_SUCCESS, alter (set_value_a (expected_verdict g)) 0%nat params, h') /\
             tee_handles h' = tee_handles h /\ h_capacity h' = h_capacity h.
Proof. apply get_hmac_heap_run. Qed.

(** When the TEE has no room for the operation, [hmac_sha1] fails with
    [TEE_ERROR_OUT_OF_MEMORY] before writing [mac], and [get_hmac] still
    compares the untouched [mac] with [output]. *)
Lemma get_hmac_no_room g (h : heap) params (mac0 : bytes) :
  globals_wf g -> MIN_KEY_SIZE <= K_len g ->
  (h_capacity h <= size (h_objects h))%nat -> length mac0 = 20%nat ->
  get_hmac exp_get_hmac_types params g h mac0 =
    Some (TEE_ERROR_OUT_OF_MEMORY,
          alter (set_value_a (if decide (take (Z.to_nat (output_len g)) mac0 =
                                         take (Z.to_nat (output_len g)) (output g)) then 0 else 1))
                0%nat params, EMSG h "0x%08x"%string [TEE_ERROR_OUT_OF_MEMORY]).
Proof.
  intros ((_ & HKlen & _) & _ & (Ho & Hol & _)) Hk Hc Hm.
  unfold get_hmac. rewrite decide_False by (intros Hn; by apply Hn).
  unfold hmac_sha1. rewrite decide_False by (unfold MIN_KEY_SIZE, MAX_KEY_SIZE in *; lia).
  cbn [TEE_AllocateOperation TEE_FreeTransientObject heap_crypto].
  unfold AllocateOperation. rewrite decide_True.
  2: { split_and!; [done|done|]. unfold hmac_sha1_key_size, MIN_KEY_SIZE in *.
       split; [lia|]. apply Z.mod_mul. lia. }
  unfold allocate. rewrite decide_True by done.
  rewrite decide_True by (vm_compute; discriminate).
  unfold hmac_sha1_exit. rewrite decide_False by (intros Hn; by apply Hn).
  cbn [fst snd default]. change (id mac0) with mac0.
  change (TEE_FreeTransientObject ?h' TEE_HANDLE_NULL) with h'.
  rewrite Verdict.mac_compare_loop_correct by lia.
  repeat case_decide; simplify_eq; try done. by rewrite alter_set_value_a_twice.
Qed.

(** C23: when the TEE has no room for the operation, GET_HMAC fails with
    [TEE_ERROR_OUT_OF_MEMORY], logs that code with [EMSG] and changes the
    TEE in nothing else, and yet writes into [params[0].value.a] the
    comparison of the uninitialised array [mac] with the expected tag. *)
Theorem get_hmac_out_of_memory g (h : heap) params (mac0 : bytes) :
  globals_wf g -> MIN_KEY_SIZE <= K_len g ->
  (h_capacity h <= size (h_objects h))%nat -> length mac0 = 20%nat ->
  get_hmac exp_get_hmac_types params g h mac0 =
    Some (TEE_ERROR_OUT_OF_MEMORY,
          alter (set_value_a (if decide (take (Z.to_nat (output_len g)) mac0 =
                                         take (Z.to_nat (output_len g)) (output g)) then 0 else 1))
                0%nat params, EMSG h "0x%08x"%string [TEE_ERROR_OUT_OF_MEMORY]).
Proof. apply get_hmac_no_room. Qed.

End HeapRun.

(** ** Key length, the empty tag and the uninitialised state *)

Section KeyRange.
Context {H : Type} `{TeeCrypto H}.

(** C13: [hmac_sha1] rejects a key shorter than [MIN_KEY_SIZE] or longer
    than [MAX_KEY_SIZE] bytes with [TEE_ERROR_BAD_PARAMETERS] before it
    touches the TEE, the output buffer or its length. *)
Theorem hmac_sha1_key_range (h : H) key keylen inp inlen out outlen :
  keylen < MIN_KEY_SIZE \/ keylen > MAX_KEY_SIZE ->
  hmac_sha1 h key keylen inp inlen out outlen = (TEE_ERROR_BAD_PARAMETERS, out, outlen, h).
Proof. intros Hk. unfold hmac_sha1. by rewrite decide_True. Qed.

(** GET_HMAC when the stored key is out of range: the command fails, and
    [value.a] is the loop's verdict on the uninitialised [mac]. *)
Lemma get_hmac_bad_key pt params g (h : H) (mac0 : bytes) v k :
  pt = exp_get_hmac_types -> K_len g < MIN_KEY_SIZE ->
  Verdict.mac_compare_loop (Z.to_nat (output_len g)) 0 mac0 (output g) = Some (v, k) ->
  get_hmac pt params g h mac0 =
    Some (TEE_ERROR_BAD_PARAMETERS,
          (if decide (v = 1) then alter (set_value_a 1) 0%nat (alter (set_value_a 0) 0%nat params)
           else alter (set_value_a 0) 0%nat params), h).
Proof.
  intros -> Hk Hl. unfold get_hmac. rewrite decide_False by (intros Hn; by apply Hn).
  unfold hmac_sha1 at 1. rewrite decide_True by lia. simpl. by rewrite Hl.
Qed.

(** C14: a key of fewer than [MIN_KEY_SIZE] bytes is accepted by
    REGISTER_SHARED_KEY (spec §8 asks for its rejection), and the next
    GET_HMAC then fails with [TEE_ERROR_BAD_PARAMETERS]. *)
Theorem short_key_accepted_then_unusable g (buf : bytes) params (h : H) (mac0 : bytes) :
  globals_wf g -> (length buf < 10)%nat -> length mac0 = 20%nat ->
  let '(r, g') := register_shared_key exp_register_types [TP_memref buf] g in
  r = TEE_SUCCESS /\ K_len g' = Z.of_nat (length buf) /\
  exists ps, get_hmac exp_get_hmac_types params g' h mac0 =
               Some (TEE_ERROR_BAD_PARAMETERS, ps, h).
Proof.
  intros (_ & _ & (Ho & Hol & _)) Hb Hm.
  unfold register_shared_key. rewrite decide_False by (intros Hn; by apply Hn).
  unfold memref_size. change (param0 [TP_memref buf]) with (TP_memref buf). cbn [memref_buffer].
  rewrite decide_False by (unfold MAX_KEY_SIZE; lia).
  split_and!; [done|done|].
  destruct (Verdict.mac_compare_loop (Z.to_nat (output_len g)) 0 mac0 (output g)) as [[v k]|] eqn:E.
  - eexists. apply (get_hmac_bad_key _ _ _ _ _ v k); [done|cbn; unfold MIN_KEY_SIZE; lia|done].
  - rewrite Verdict.mac_compare_loop_correct in E by lia. discriminate.
Qed.
End KeyRange.

(** C15: in the initial state (nothing registered) GET_HMAC fails with
    [TEE_ERROR_BAD_PARAMETERS]: the all-zero key is empty, so the defaults
    the spec describes for an unregistered slot are never used. *)
Theorem get_hmac_initial_fails {H : Type} `{TeeCrypto H} params (h : H) (mac0 : bytes) :
  get_hmac exp_get_hmac_types params ta_globals_init h mac0 =
    Some (TEE_ERROR_BAD_PARAMETERS, alter (set_value_a 0) 0%nat params, h).
Proof.
  rewrite (get_hmac_bad_key _ _ _ _ _ 0 0); [done|done|done|done].
Qed.

(** ** Witnesses

    The sample state: a registered 10-byte key, an empty message and an
    empty expected tag. *)

Definition sample_globals : ta_globals :=
  mkGlobals (replicate 10 7 ++ replicate 54 0) 10 (replicate 64 0) 0 (replicate 20 0) 0.

Section Witnesses.
Import Heap.

Lemma get_hmac_heap_spec_witness :
  exists h', get_hmac exp_get_hmac_types [TP_value 0 0] sample_globals (empty_heap 2) (replicate 20 0) =
               Some (TEE_SUCCESS, alter (set_value_a (expected_verdict sample_globals)) 0%nat
                                        [TP_value 0 0], h') /\
             tee_handles h' = tee_handles (empty_heap 2) /\ h_capacity h' = h_capacity (empty_heap 2).
Proof.
  apply get_hmac_heap_spec;
    [apply (bool_decide_unpack _); vm_compute; reflexivity|vm_compute; discriminate
    |vm_compute; lia|reflexivity].
Defined.

Lemma hmac_sha1_handles_witness :
  tee_handles (hmac_sha1 (empty_heap 2) (replicate 10 7) 10 (Some []) 0
                         (Some (replicate 20 0)) (Some 20)).2 = tee_handles (empty_heap 2).
Proof. apply hmac_sha1_handles. Defined.

Lemma invoke_preserves_wf_witness :
  globals_wf (mkGlobals (replicate 64 0) 0 (replicate 64 0) 0 ([1; 2; 3] ++ replicate 17 0) 3).
Proof.
  apply (invoke_preserves_wf TA_HMAC_CMD_REGISTER_OUTPUT exp_register_types [TP_memref [1; 2; 3]]
           ta_globals_init (empty_heap 0) [] TEE_SUCCESS [TP_memref [1; 2; 3]] _ (empty_heap 0));
    [apply (bool_decide_unpack _); vm_compute; reflexivity
    |apply (bool_decide_unpack _); vm_compute; reflexivity|vm_compute; reflexivity].
Defined.

Lemma invoke_error_unchanged_witness :
  TA_InvokeCommandEntryPoint TA_HMAC_CMD_REGISTER_SHARED_KEY exp_register_types
    [TP_memref (replicate 65 1)] (sample_globals, empty_heap 0) [] =
    Some (TEE_ERROR_BAD_PARAMETERS, [TP_memref (replicate 65 1)], (sample_globals, empty_heap 0)) /\
  sample_globals = sample_globals.
Proof.
  split; [vm_compute; reflexivity|].
  apply (invoke_error_unchanged TA_HMAC_CMD_REGISTER_SHARED_KEY exp_register_types
           [TP_memref (replicate 65 1)] sample_globals (empty_heap 0) [] TEE_ERROR_BAD_PARAMETERS
           [TP_memref (replicate 65 1)] sample_globals (empty_heap 0));
    [vm_compute; reflexivity|vm_compute; discriminate].
Defined.


Lemma get_hmac_safe_witness :
  is_Some (get_hmac exp_get_hmac_types [TP_value 0 0] ta_globals_init (empty_heap 0) (replicate 20 0)).
Proof.
  apply get_hmac_safe; [apply (bool_decide_unpack _); vm_compute; reflexivity|reflexivity].
Defined.

Lemma hmac_sha1_key_range_witness :
  hmac_sha1 (empty_heap 2) [1; 2; 3] 3 None 0 None None =
    (TEE_ERROR_BAD_PARAMETERS, None, None, empty_heap 2).
Proof. apply hmac_sha1_key_range. left. vm_compute. reflexivity. Defined.

Lemma short_key_accepted_then_unusable_witness :
  let '(r, g') := register_shared_key exp_register_types [TP_memref [1; 2; 3]] ta_globals_init in
  r = TEE_SUCCESS /\ K_len g' = Z.of_nat (length [1; 2; 3]) /\
  exists ps, get_hmac exp_get_hmac_types [TP_value 0 0] g' (empty_heap 2) (replicate 20 0) =
               Some (TEE_ERROR_BAD_PARAMETERS, ps, empty_heap 2).
Proof.
  apply short_key_accepted_then_unusable;
    [apply (bool_decide_unpack _); vm_compute; reflexivity|simpl; lia|reflexivity].
Defined.

Lemma get_hmac_out_of_memory_witness :
  get_hmac exp_get_hmac_types [TP_value 9 9] sample_globals (empty_heap 0) (replicate 20 3) =
    Some (TEE_ERROR_OUT_OF_MEMORY,
          alter (set_value_a (if decide (take (Z.to_nat (output_len sample_globals)) (replicate 20 3) =
                                         take (Z.to_nat (output_len sample_globals)) (output sample_globals))
                              then 0 else 1)) 0%nat [TP_value 9 9],
          EMSG (empty_heap 0) "0x%08x"%string [TEE_ERROR_OUT_OF_MEMORY]).
Proof.
  apply get_hmac_out_of_memory;
    [apply (bool_decide_unpack _); vm_compute; reflexivity|vm_compute; discriminate
    |vm_compute; lia|reflexivity].
Defined.
Lemma invoke_preserves_params_typed_witness :
  params_typed exp_get_hmac_types [TP_value 0 9; TP_none; TP_none; TP_none].
Proof.
  apply (invoke_preserves_params_typed TA_HMAC_CMD_GET_HMAC exp_get_hmac_types
           [TP_value 9 9; TP_none; TP_none; TP_none] sample_globals (empty_heap 2) (replicate 20 0)
           TEE_SUCCESS [TP_value 0 9; TP_none; TP_none; TP_none] (sample_globals, empty_heap 2));
    [apply (bool_decide_unpack _); vm_compute; reflexivity|vm_compute; reflexivity].
Defined.

Lemma get_hmac_value_range_witness :
  value_a (param0 [TP_value 0 9; TP_none; TP_none; TP_none]) = Some 0 \/
  value_a (param0 [TP_value 0 9; TP_none; TP_none; TP_none]) = Some 1.
Proof.
  apply (get_hmac_value_range [TP_value 9 9; TP_none; TP_none; TP_none] sample_globals (empty_heap 2)
           (replicate 20 0) TEE_SUCCESS _ (empty_heap 2));
    [apply (bool_decide_unpack _); vm_compute; reflexivity|vm_compute; reflexivity].
Defined.
Lemma hmac_sha1_final_failure_unlogged_witness :
  let r := hmac_sha1 (empty_heap 2) (replicate 10 7) 10 (Some []) 0 (Some (replicate 20 0)) (Some 19) in
  r.1.1.1 = TEE_ERROR_SHORT_BUFFER /\ tee_trace r.2 = tee_trace (empty_heap 2) /\
  tee_handles r.2 = tee_handles (empty_heap 2).
Proof.
  apply hmac_sha1_final_failure_unlogged;
    [unfold MIN_KEY_SIZE, MAX_KEY_SIZE; lia|simpl; lia|vm_compute; lia|vm_compute; reflexivity].
Defined.
Lemma hmac_sha1_logs_witness :
  let r := hmac_sha1 (empty_heap 0) (replicate 10 7) 10 (Some []) 0 (Some (replicate 20 0)) (Some 20) in
  tee_trace r.2 = tee_trace (empty_heap 0) \/
  (r.1.1.1 <> TEE_SUCCESS /\ tee_trace r.2 = tee_trace (empty_heap 0) ++ [error_line r.1.1.1]).
Proof. apply hmac_sha1_logs. Defined.
End Witnesses.

End HmacTa.
