(* ===== verification/Host.v ===== *)
(** * The normal-world client ([src/mac_sha1/host/main.c])

    [main] opens a session, registers the key [mac_data_sha1_key1], the
    message [mac_data_sha1_in1] and the expected tag [mac_data_sha1_out1]
    with three [TEEC_InvokeCommand]s, asks for the verdict and prints
    [op.params[0].value.a].  The model runs it against the TA of [HmacTa]:
    a [TEEC_InvokeCommand] is [TA_InvokeCommandEntryPoint] on the
    parameters the client declared (a temporary input buffer becomes a
    memory reference of its [size] bytes, [op = { 0 }] makes the value
    pair zero).  The source's [goto exit] has no [exit:] label in the file;
    the model returns the failing result there, which is what the label
    would do.  [TEEC_InitializeContext] does not reach the TA: its result
    is an argument of [main], whose failure is the [errx(1, ...)] exit.
    What [main] prints is part of its result: one [host_output] per
    [fprintf] or [errx] call, in order, with the format string and the
    values its conversions read; a [%s] of an array with no NUL reads
    past it and is recorded as [ArgStr None]. *)

From stdpp Require Import strings.
From S2P Require Import Prelude Sha1 Hmac TeeApi Verdict HmacTa.

Module Host.
Import HmacTa.

(** ** The test vectors (lines 19-42) *)

Definition mac_data_sha1_key1 : bytes :=
  [0x6B; 0x65; 0x79; 0x6B; 0x65; 0x79; 0x6B; 0x65; 0x79; 0x6B].

Definition mac_data_sha1_in1 : bytes :=
  [0x54; 0x68; 0x65; 0x20; 0x71; 0x75; 0x69; 0x63; 0x6B; 0x20; 0x62; 0x72; 0x6F; 0x77;
   0x6E; 0x20; 0x66; 0x6F; 0x78; 0x20; 0x6A; 0x75; 0x6D; 0x70; 0x73; 0x20; 0x6F; 0x76;
   0x65; 0x72; 0x20; 0x74; 0x68; 0x65; 0x20; 0x6C; 0x61; 0x7A; 0x79; 0x20; 0x64; 0x6F;
   0x67].

Definition mac_data_sha1_out1 : bytes :=
  [0xE4; 0x2E; 0x20; 0x42; 0x73; 0xDE; 0x8A; 0xFC; 0x9E; 0x19; 0x80; 0x5B; 0x8A; 0xC4;
   0xBA; 0xFC; 0xFB; 0x51; 0x85; 0x86].

(** ** The client API ([tee_client_api.h]) *)

Definition TEEC_SUCCESS : Z := 0.
Definition TEEC_NONE : Z := 0.
Definition TEEC_VALUE_OUTPUT : Z := 2.
Definition TEEC_MEMREF_TEMP_INPUT : Z := 5.
Definition TEEC_PARAM_TYPES (t0 t1 t2 t3 : Z) : Z := TEE_PARAM_TYPES t0 t1 t2 t3.
(** [err_origin]: the error code comes from the TEE core, or from the TA
    itself. *)
Definition TEEC_ORIGIN_TEE : Z := 3.
Definition TEEC_ORIGIN_TRUSTED_APP : Z := 4.
Definition TEEC_ERROR_ITEM_NOT_FOUND : TEE_Result := 0xFFFF0008.

(** [TEEC_OpenSession] as the client library and the TEE core carry it
    out: the TA of [hmac_ta.c], the one TA of the model, is found by its
    UUID and its [TA_OpenSessionEntryPoint] decides, with the origin
    [TEEC_ORIGIN_TRUSTED_APP]; any other UUID names no TA.  Its result is
    the pair [(res, err_origin)]. *)
Definition TEEC_OpenSession (uuid : TEE_UUID) (param_types : Z) : TEE_Result * Z :=
  if decide (uuid = TA_HMAC_UUID)
  then (TA_OpenSessionEntryPoint param_types, TEEC_ORIGIN_TRUSTED_APP)
  else (TEEC_ERROR_ITEM_NOT_FOUND, TEEC_ORIGIN_TEE).

(** ** What [main] prints

    Each [fprintf] or [errx] call is one entry of the output, with its
    format string and its arguments as the conversions read them: a [%s]
    argument is what [cstr_read] finds in the array ([None]: the read
    runs past its end), a [%d] or [%x] argument is the integer ([None]:
    [op.params[0]] does not hold a value). *)

Inductive stream := Stdout | Stderr.

Inductive fmt_arg :=
| ArgStr (s : option bytes)
| ArgInt (v : option Z).

Inductive host_output :=
| Fprintf (st : stream) (fmt : string) (args : list fmt_arg)
| Errx (status : Z) (fmt : string) (args : list fmt_arg).

Definition nl : string := String (Ascii.ascii_of_nat 10) EmptyString.
Definition line (s : string) : string := String.append s nl.

Definition key_fmt : string := line "Register the shared key: %s"%string.
Definition message_fmt : string := line "Register the message: %s"%string.
Definition output_fmt : string := line "Register the output: %s"%string.
Definition hmac_fmt : string := line "HMAC: %d"%string.
Definition invoke_failed_fmt : string :=
  line "TEEC_InvokeCommand failed with code 0x%x origin 0x%x"%string.
Definition init_failed_fmt : string := "TEEC_InitializeContext failed with code 0x%x"%string.
Definition open_failed_fmt : string := "TEEC_Opensession failed with code 0x%x origin 0x%x"%string.

(** [fprintf(stdout, fmt, buf)] for a registered buffer. *)
Definition print_buffer (fmt : string) (buf : bytes) : host_output :=
  Fprintf Stdout fmt [ArgStr (cstr_read buf)].

(** The report of a failed [TEEC_InvokeCommand], which [goto exit] follows. *)
Definition invoke_failed (res : TEE_Result) : host_output :=
  Fprintf Stderr invoke_failed_fmt [ArgInt (Some res); ArgInt (Some TEEC_ORIGIN_TRUSTED_APP)].

(** ** [main] *)

Inductive host_result :=
| Exited (status : Z) (hmac_value : option Z)  (* [return 0] or [errx(1, ...)] *)
| Failed (res : TEE_Result).                   (* [goto exit] after a failed command *)

Section Main.
Context {H : Type} `{TeeCrypto H}.

(** One [TEEC_InvokeCommand] with a temporary input buffer. *)
Definition invoke_with_buffer (cmd : Z) (buf : bytes) (s : ta_globals * H) (mac0 : bytes)
    : option (TEE_Result * list TEE_Param * (ta_globals * H)) :=
  TA_InvokeCommandEntryPoint cmd
    (TEEC_PARAM_TYPES TEEC_MEMREF_TEMP_INPUT TEEC_NONE TEEC_NONE TEEC_NONE)
    [TP_memref buf; TP_none; TP_none; TP_none] s mac0.

(** [init_res] is what [TEEC_InitializeContext] returned: the client
    library's connection to the TEE driver, which does not reach the TA.
    The result carries the output printed so far, in order. *)
Definition main (init_res : TEE_Result) (s : ta_globals * H) (mac0 : bytes)
    : option (host_result * list host_output * (ta_globals * H)) :=
  if decide (init_res <> TEEC_SUCCESS)
  then Some (Exited 1 None, [Errx 1 init_failed_fmt [ArgInt (Some init_res)]], s) else
  let uuid := TA_HMAC_UUID in
  let '(open_res, err_origin) :=
    TEEC_OpenSession uuid (TEEC_PARAM_TYPES TEEC_NONE TEEC_NONE TEEC_NONE TEEC_NONE) in
  if decide (open_res <> TEEC_SUCCESS)
  then Some (Exited 1 None, [Errx 1 open_failed_fmt
                               [ArgInt (Some open_res); ArgInt (Some err_origin)]], s) else
  let out := [print_buffer key_fmt mac_data_sha1_key1] in
  '(res, _, s) ← invoke_with_buffer TA_HMAC_CMD_REGISTER_SHARED_KEY mac_data_sha1_key1 s mac0;
  if decide (res <> TEEC_SUCCESS) then Some (Failed res, out ++ [invoke_failed res], s) else
  let out := out ++ [print_buffer message_fmt mac_data_sha1_in1] in
  '(res, _, s) ← invoke_with_buffer TA_HMAC_CMD_REGISTER_MESSAGE mac_data_sha1_in1 s mac0;
  if decide (res <> TEEC_SUCCESS) then Some (Failed res, out ++ [invoke_failed res], s) else
  let out := out ++ [print_buffer output_fmt mac_data_sha1_out1] in
  '(res, _, s) ← invoke_with_buffer TA_HMAC_CMD_REGISTER_OUTPUT mac_data_sha1_out1 s mac0;
  if decide (res <> TEEC_SUCCESS) then Some (Failed res, out ++ [invoke_failed res], s) else
  '(res, ps, s) ← TA_InvokeCommandEntryPoint TA_HMAC_CMD_GET_HMAC
                    (TEEC_PARAM_TYPES TEEC_VALUE_OUTPUT TEEC_NONE TEEC_NONE TEEC_NONE)
                    [TP_value 0 0; TP_none; TP_none; TP_none] s mac0;
  if decide (res <> TEEC_SUCCESS) then Some (Failed res, out ++ [invoke_failed res], s) else
  let hmac_value := value_a (param0 ps) in
  Some (Exited 0 hmac_value, out ++ [Fprintf Stdout hmac_fmt [ArgInt hmac_value]], s).
End Main.

(** The three lines printed before the registrations. *)
Definition registered_lines : list host_output :=
  [print_buffer key_fmt mac_data_sha1_key1; print_buffer message_fmt mac_data_sha1_in1;
   print_buffer output_fmt mac_data_sha1_out1].

(** The TA's buffers once the three registrations have succeeded: they no
    longer depend on the state before. *)
Definition host_globals : ta_globals :=
  mkGlobals (mac_data_sha1_key1 ++ replicate 54 0) 10
            (mac_data_sha1_in1 ++ replicate 21 0) 43
            mac_data_sha1_out1 20.

(** ** Theorems *)

(** The known-answer vector of the spec (§8) and of the host: the
    HMAC-SHA1 of [mac_data_sha1_in1] under [mac_data_sha1_key1] is
    [mac_data_sha1_out1]. *)
Example host_vector_hmac :
  Hmac.HMAC_SHA1 mac_data_sha1_key1 mac_data_sha1_in1 = mac_data_sha1_out1.
Proof. vm_compute. reflexivity. Qed.

Lemma host_globals_wf : globals_wf host_globals.
Proof. apply (bool_decide_unpack _). vm_compute. reflexivity. Qed.

(** The tag [get_hmac] computes from the buffers the host registered. *)
Lemma host_globals_tag :
  Hmac.HMAC_SHA1 (take (Z.to_nat 10) (K host_globals))
                 (take (Z.to_nat 43) (input host_globals)) = mac_data_sha1_out1.
Proof. vm_compute. reflexivity. Qed.

Lemma main_after_registration {H : Type} `{TeeCrypto H} (g : ta_globals) (h : H) (mac0 : bytes) :
  main TEEC_SUCCESS (g, h) mac0 =
    ('(res, ps, s) ← (fun '(r, ps, h) => (r, ps, (host_globals, h))) <$>
         get_hmac exp_get_hmac_types [TP_value 0 0; TP_none; TP_none; TP_none] host_globals h mac0;
     if decide (res <> TEEC_SUCCESS) then Some (Failed res, registered_lines ++ [invoke_failed res], s) else
     Some (Exited 0 (value_a (param0 ps)),
           registered_lines ++ [Fprintf Stdout hmac_fmt [ArgInt (value_a (param0 ps))]], s)).
Proof. reflexivity. Qed.

(** The contract's verdict on what the host registers is a match. *)
Lemma host_expected_verdict : expected_verdict host_globals = 0.
Proof.
  unfold expected_verdict. cbn [K_len input_len output_len host_globals].
  rewrite host_globals_tag. by rewrite decide_True.
Qed.

Section HeapHost.
Import Heap.

(** C3: whatever the TA held before, on a TEE with room for two
    handles, the client's run succeeds and prints the three registration
    lines and the verdict 0 (match);
    the TA ends holding the host's key, message and tag. *)
Theorem main_reports_match (g : ta_globals) (h : heap) (mac0 : bytes) :
  (size (h_objects h) + 2 <= h_capacity h)%nat -> length mac0 = 20%nat ->
  exists h', main TEEC_SUCCESS (g, h) mac0 =
    Some (Exited 0 (Some 0), registered_lines ++ [Fprintf Stdout hmac_fmt [ArgInt (Some 0)]],
          (host_globals, h')).
Proof.
  intros Hc Hm.
  destruct (get_hmac_heap_run host_globals h [TP_value 0 0; TP_none; TP_none; TP_none] mac0)
    as (h' & E & _); [apply host_globals_wf|vm_compute; discriminate|done|done|].
  exists h'. rewrite main_after_registration, E. by rewrite host_expected_verdict.
Qed.
End HeapHost.

(** The verdict the contract gives once the host's tag has one byte
    changed. *)
Lemma host_tag_changed_verdict (i : nat) (b : Z) :
  (i < 20)%nat -> mac_data_sha1_out1 !! i <> Some b ->
  expected_verdict (mkGlobals (K host_globals) 10 (input host_globals) 43
                              (<[i := b]> mac_data_sha1_out1) 20) = 1.
Proof.
  intros Hi Hb. unfold expected_verdict. cbn [K_len K input_len input output_len output].
  rewrite host_globals_tag. rewrite decide_False; [done|].
  intros E. apply (f_equal (lookup i)) in E.
  rewrite !lookup_take in E. rewrite list_lookup_insert_eq in E by (simpl; lia).
  case_decide; [congruence|lia].
Qed.

(** REGISTER_OUTPUT of a 20-byte tag through the client's call. *)
Lemma invoke_register_output {H : Type} `{TeeCrypto H} (g : ta_globals) (h : H) (mac0 tag : bytes) :
  length tag = 20%nat ->
  invoke_with_buffer TA_HMAC_CMD_REGISTER_OUTPUT tag (g, h) mac0 =
    Some (TEE_SUCCESS, [TP_memref tag; TP_none; TP_none; TP_none],
          (mkGlobals (K g) (K_len g) (input g) (input_len g) tag 20, h)).
Proof.
  intros Hl. change (invoke_with_buffer TA_HMAC_CMD_REGISTER_OUTPUT tag (g, h) mac0) with
    (let '(r, g') := register_output exp_register_types [TP_memref tag; TP_none; TP_none; TP_none] g in
     Some (r, [TP_memref tag; TP_none; TP_none; TP_none], (g', h))).
  unfold register_output, memref_size.
  change (memref_buffer (param0 [TP_memref tag; TP_none; TP_none; TP_none])) with tag.
  rewrite Nat2Z.id, memcpy_zero_full by (rewrite Hl; done).
  rewrite Hl, decide_False, decide_False by (unfold SHA1_HASH_SIZE; lia || done).
  by rewrite app_nil_r.
Qed.

Section Mismatch.
Import Heap.

(** C17: mismatch detection through the TA (spec §8): after the host's
    key and message, registering its tag with any one byte changed and
    asking for the verdict runs all four commands with [TEE_SUCCESS], and
    GET_HMAC writes [value.a = 1], whatever the TA held before, on a TEE
    with room for the two handles of [hmac_sha1]. *)
Theorem host_single_byte_mismatch (g : ta_globals) (h : heap) (mac0 : bytes) (i : nat) (b : Z) :
  (size (h_objects h) + 2 <= h_capacity h)%nat -> length mac0 = 20%nat ->
  (i < 20)%nat -> byte_ok b -> mac_data_sha1_out1 !! i <> Some b ->
  exists h',
    ('(r1, _, s) ← invoke_with_buffer TA_HMAC_CMD_REGISTER_SHARED_KEY mac_data_sha1_key1 (g, h) mac0;
     '(r2, _, s) ← invoke_with_buffer TA_HMAC_CMD_REGISTER_MESSAGE mac_data_sha1_in1 s mac0;
     '(r3, _, s) ← invoke_with_buffer TA_HMAC_CMD_REGISTER_OUTPUT (<[i := b]> mac_data_sha1_out1) s mac0;
     '(r4, ps, s) ← TA_InvokeCommandEntryPoint TA_HMAC_CMD_GET_HMAC
                      (TEEC_PARAM_TYPES TEEC_VALUE_OUTPUT TEEC_NONE TEEC_NONE TEEC_NONE)
                      [TP_value 0 0; TP_none; TP_none; TP_none] s mac0;
     Some ([r1; r2; r3; r4], ps, snd s)) =
    Some ([TEE_SUCCESS; TEE_SUCCESS; TEE_SUCCESS; TEE_SUCCESS],
          [TP_value 1 0; TP_none; TP_none; TP_none], h').
Proof.
  intros Hc Hm Hi Hb Hne.
  set (tag := <[i := b]> mac_data_sha1_out1).
  assert (Hl : length tag = 20%nat) by (unfold tag; by rewrite length_insert).
  set (g' := mkGlobals (K host_globals) 10 (input host_globals) 43 tag 20).
  assert (Hwf : globals_wf g').
  { pose proof host_globals_wf as (HK & HI & (_ & _ & HO & _)).
    split_and!; [done|done|]. unfold slot_wf, g'. cbn [output output_len]. rewrite Hl.
    split_and!; [done|lia|lia|by apply Forall_insert|by rewrite drop_ge by (rewrite Hl; lia)]. }
  destruct (get_hmac_heap_run g' h [TP_value 0 0; TP_none; TP_none; TP_none] mac0)
    as (h' & E & _); [done|vm_compute; discriminate|done|done|].
  exists h'. cbn [mbind option_bind].
  change (invoke_with_buffer TA_HMAC_CMD_REGISTER_SHARED_KEY _ _ _) with
    (Some (TEE_SUCCESS, [TP_memref mac_data_sha1_key1; TP_none; TP_none; TP_none],
           (mkGlobals (K host_globals) 10 (input g) (input_len g) (output g) (output_len g), h))).
  cbn [mbind option_bind].
  change (invoke_with_buffer TA_HMAC_CMD_REGISTER_MESSAGE _ _ _) with
    (Some (TEE_SUCCESS, [TP_memref mac_data_sha1_in1; TP_none; TP_none; TP_none],
           (mkGlobals (K host_globals) 10 (input host_globals) 43 (output g) (output_len g), h))).
  cbn [mbind option_bind]. rewrite invoke_register_output by done. cbn [mbind option_bind].
  change (TA_InvokeCommandEntryPoint TA_HMAC_CMD_GET_HMAC _ _ _ mac0) with
    ((fun '(r, ps, h) => (r, ps, (g', h))) <$>
       get_hmac exp_get_hmac_types [TP_value 0 0; TP_none; TP_none; TP_none] g' h mac0).
  rewrite E. unfold g', tag. by rewrite host_tag_changed_verdict.
Qed.
End Mismatch.

Section Output.
Context {H : Type} `{TeeCrypto H}.

(** The session [main] asks for is the TA's, which accepts it. *)
Lemma open_session_ok :
  TEEC_OpenSession TA_HMAC_UUID (TEEC_PARAM_TYPES TEEC_NONE TEEC_NONE TEEC_NONE TEEC_NONE) =
    (TEEC_SUCCESS, TEEC_ORIGIN_TRUSTED_APP).
Proof. reflexivity. Qed.

(** Every path of [main]: resolve the guards and the commands' results. *)
Ltac main_cases E :=
  unfold main in E; rewrite open_session_ok in E; unfold mbind, option_bind in E;
  repeat (case_decide || case_match); simplify_eq/=.

(** C18: no [%s] that [main] prints is well defined: none of the three
    arrays it prints with [%s] has a NUL byte, so every such conversion
    reads past its array, and once the context is up the first line
    printed, before any command reaches the TA, is already such a read. *)
Theorem main_prints_overreads (s : ta_globals * H) mac0 r out s' :
  main TEEC_SUCCESS s mac0 = Some (r, out, s') ->
  hd_error out = Some (Fprintf Stdout key_fmt [ArgStr None]) /\
  Forall (fun o => forall st fmt b, o <> Fprintf st fmt [ArgStr (Some b)]) out.
Proof.
  intros E. main_cases E; cbv [print_buffer invoke_failed]; simpl;
    (split; [done|]); repeat constructor; intros; congruence.
Qed.

End Output.

Section NoRoom.
Import Heap.

(** C25: on a TEE with no room for an operation, the client's three
    registrations succeed, GET_HMAC fails, and [main] takes its error exit
    with [TEE_ERROR_OUT_OF_MEMORY]: after the three registration lines it
    prints the failure's code and origin on stderr, and no verdict; the
    TA has logged the code to the TEE's trace. *)
Theorem main_fails_without_room (g : ta_globals) (h : heap) (mac0 : bytes) :
  (h_capacity h <= size (h_objects h))%nat -> length mac0 = 20%nat ->
  main TEEC_SUCCESS (g, h) mac0 =
    Some (Failed TEE_ERROR_OUT_OF_MEMORY, registered_lines ++ [invoke_failed TEE_ERROR_OUT_OF_MEMORY],
          (host_globals, EMSG h "0x%08x"%string [TEE_ERROR_OUT_OF_MEMORY])).
Proof.
  intros Hc Hm. rewrite main_after_registration.
  rewrite get_hmac_no_room; [|apply host_globals_wf|vm_compute; discriminate|done|done].
  reflexivity.
Qed.
End NoRoom.

(** ** Witnesses *)

Section Witnesses.
Import Heap.

Lemma main_reports_match_witness :
  exists h', main TEEC_SUCCESS (ta_globals_init, empty_heap 2) (replicate 20 0) =
    Some (Exited 0 (Some 0), registered_lines ++ [Fprintf Stdout hmac_fmt [ArgInt (Some 0)]],
          (host_globals, h')).
Proof. apply main_reports_match; [vm_compute; lia|reflexivity]. Defined.
Lemma main_fails_without_room_witness :
  main TEEC_SUCCESS (ta_globals_init, empty_heap 0) (replicate 20 0) =
    Some (Failed TEE_ERROR_OUT_OF_MEMORY, registered_lines ++ [invoke_failed TEE_ERROR_OUT_OF_MEMORY],
          (host_globals, EMSG (empty_heap 0) "0x%08x"%string [TEE_ERROR_OUT_OF_MEMORY])).
Proof. apply main_fails_without_room; [vm_compute; lia|reflexivity]. Defined.
End Witnesses.

Section OutputWitnesses.
Import Heap.

Lemma main_prints_overreads_witness :
  match main TEEC_SUCCESS (ta_globals_init, empty_heap 2) (replicate 20 0) with
  | Some (r, out, s') => hd_error out = Some (Fprintf Stdout key_fmt [ArgStr None]) /\
      Forall (fun o => forall st fmt b, o <> Fprintf st fmt [ArgStr (Some b)]) out
  | None => False
  end.
Proof.
  destruct (main TEEC_SUCCESS _ _) as [[[r out] s']|] eqn:E; [|vm_compute in E; discriminate].
  exact (main_prints_overreads _ _ _ _ _ E).
Defined.

End OutputWitnesses.

Section MismatchWitness.
Import Heap.
Lemma host_single_byte_mismatch_witness :
  exists h',
    ('(r1, _, s) ← invoke_with_buffer TA_HMAC_CMD_REGISTER_SHARED_KEY mac_data_sha1_key1
                      (ta_globals_init, empty_heap 2) (replicate 20 0);
     '(r2, _, s) ← invoke_with_buffer TA_HMAC_CMD_REGISTER_MESSAGE mac_data_sha1_in1 s (replicate 20 0);
     '(r3, _, s) ← invoke_with_buffer TA_HMAC_CMD_REGISTER_OUTPUT
                      (<[19%nat := 0x87]> mac_data_sha1_out1) s (replicate 20 0);
     '(r4, ps, s) ← TA_InvokeCommandEntryPoint TA_HMAC_CMD_GET_HMAC
                      (TEEC_PARAM_TYPES TEEC_VALUE_OUTPUT TEEC_NONE TEEC_NONE TEEC_NONE)
                      [TP_value 0 0; TP_none; TP_none; TP_none] s (replicate 20 0);
     Some ([r1; r2; r3; r4], ps, snd s)) =
    Some ([TEE_SUCCESS; TEE_SUCCESS; TEE_SUCCESS; TEE_SUCCESS],
          [TP_value 1 0; TP_none; TP_none; TP_none], h').
Proof.
  apply host_single_byte_mismatch;
    [vm_compute; lia|reflexivity|lia|unfold byte_ok; lia|vm_compute; discriminate].
Defined.
End MismatchWitness.

End Host.
