(* ===== verification/Sessions.v ===== *)
(** * Sessions: the TA instance the TEE core drives

    The TEE core creates one instance of the TA ([TA_CreateEntryPoint])
    and delivers to it, one at a time, the opening of sessions, command
    invocations on an open session and their closing.  In [hmac_ta.c] the
    session context [sess_ctx] is unused by all three entry points
    (lines 243-281): every session reads and writes the same static
    buffers.  [ta_step] is one such delivery on the instance
    [ta_instance] (the static buffers, the TEE, the set of open sessions
    the core keeps); [reachable] is the set of instances a sequence of
    deliveries produces, with its invariant proved by rule induction, and
    [deliveries_ok] the sequences the core may make, which run to the end
    from every reachable instance.  [Store] shows what the sharing of the
    buffers amounts to: the instance behaves as one store for all its
    sessions. *)

From S2P Require Import Prelude TeeApi Verdict HmacTa Host.

Module Sessions.
Import HmacTa.

(** What the TEE core delivers to the TA. *)
Inductive ta_event :=
| EvOpenSession (sid : nat) (param_types : Z)
| EvInvokeCommand (sid : nat) (cmd_id param_types : Z) (params : list TEE_Param) (mac0 : bytes)
| EvCloseSession (sid : nat).

(** The memory references the core passes hold bytes. *)
Definition event_ok (e : ta_event) : Prop :=
  match e with EvInvokeCommand _ _ _ params _ => params_ok params | _ => True end.

(** The part of the static buffers a command changes: the register
    handlers' updates; [get_hmac] and unknown commands change none. *)
Definition globals_after (cmd pt : Z) (params : list TEE_Param) (g : ta_globals) : ta_globals :=
  if decide (cmd = TA_HMAC_CMD_REGISTER_SHARED_KEY) then (register_shared_key pt params g).2
  else if decide (cmd = TA_HMAC_CMD_REGISTER_MESSAGE) then (register_message pt params g).2
  else if decide (cmd = TA_HMAC_CMD_REGISTER_OUTPUT) then (register_output pt params g).2
  else g.

Definition step_result : Type := TEE_Result * list TEE_Param.

Section Instance.
Context {H : Type} `{TeeCrypto H}.

(** ** The instance of the code: one set of static buffers *)

Record ta_instance := mkInstance {
  ti_globals : ta_globals; ti_tee : H; ti_sessions : gset nat }.

(** [TA_CreateEntryPoint] returns [TEE_SUCCESS]; static storage is
    zeroed. *)
Definition ta_create (h : H) : ta_instance := mkInstance ta_globals_init h ∅.

(** One delivery.  The core never opens a session twice nor invokes or
    closes one that is not open ([None]); [TA_CloseSessionEntryPoint]
    does nothing; the session id never reaches the handlers. *)
Definition ta_step (s : ta_instance) (e : ta_event) : option (step_result * ta_instance) :=
  match e with
  | EvOpenSession sid pt =>
      if decide (sid ∈ ti_sessions s) then None else
      let r := TA_OpenSessionEntryPoint pt in
      Some ((r, []), if decide (r = TEE_SUCCESS)
                     then mkInstance (ti_globals s) (ti_tee s) ({[sid]} ∪ ti_sessions s) else s)
  | EvInvokeCommand sid cmd pt params mac0 =>
      if decide (sid ∈ ti_sessions s) then
        '(r, ps, gh) ← TA_InvokeCommandEntryPoint cmd pt params (ti_globals s, ti_tee s) mac0;
        Some ((r, ps), mkInstance gh.1 gh.2 (ti_sessions s))
      else None
  | EvCloseSession sid =>
      if decide (sid ∈ ti_sessions s) then
        Some ((TEE_SUCCESS, []), mkInstance (ti_globals s) (ti_tee s) (ti_sessions s ∖ {[sid]}))
      else None
  end.

Fixpoint ta_run (s : ta_instance) (evs : list ta_event) : option (list step_result * ta_instance) :=
  match evs with
  | [] => Some ([], s)
  | e :: evs' => '(r, s1) ← ta_step s e; '(rs, s2) ← ta_run s1 evs'; Some (r :: rs, s2)
  end.

Inductive reachable (h0 : H) : ta_instance -> Prop :=
| reachable_create : reachable h0 (ta_create h0)
| reachable_step s e r s' :
    reachable h0 s -> event_ok e -> ta_step s e = Some (r, s') -> reachable h0 s'.

End Instance.

(** ** Deliveries the TEE core may make *)

(** The open sessions after a delivery: [TA_OpenSessionEntryPoint]'s
    result decides whether the session opens. *)
Definition next_sessions (open : gset nat) (e : ta_event) : gset nat :=
  match e with
  | EvOpenSession sid pt =>
      if decide (TA_OpenSessionEntryPoint pt = TEE_SUCCESS) then {[sid]} ∪ open else open
  | EvInvokeCommand _ _ _ _ _ => open
  | EvCloseSession sid => open ∖ {[sid]}
  end.

(** A delivery the core may make: a new session id, or one that is open;
    memory references holding bytes; the 20-byte stack array [mac]. *)
Definition delivery_ok (open : gset nat) (e : ta_event) : Prop :=
  match e with
  | EvOpenSession sid _ => sid ∉ open
  | EvInvokeCommand sid _ _ params mac0 => sid ∈ open /\ params_ok params /\ length mac0 = 20%nat
  | EvCloseSession sid => sid ∈ open
  end.

Fixpoint deliveries_ok (open : gset nat) (evs : list ta_event) : Prop :=
  match evs with
  | [] => True
  | e :: evs' => delivery_ok open e /\ deliveries_ok (next_sessions open e) evs'
  end.

#[export] Instance delivery_ok_dec open e : Decision (delivery_ok open e).
Proof. destruct e; simpl; unfold params_ok; apply _. Defined.

#[export] Instance deliveries_ok_dec open evs : Decision (deliveries_ok open evs).
Proof. revert open; induction evs; intros; simpl; apply _. Defined.

(** ** The buffers a command leaves *)

Lemma invoke_globals_after {H : Type} `{TeeCrypto H} cmd pt params g (h : H) mac0 r ps g' h' :
  TA_InvokeCommandEntryPoint cmd pt params (g, h) mac0 = Some (r, ps, (g', h')) ->
  g' = globals_after cmd pt params g.
Proof.
  unfold TA_InvokeCommandEntryPoint, globals_after.
  repeat case_decide;
    try (destruct (register_shared_key _ _ _) eqn:?);
    try (destruct (register_message _ _ _) eqn:?);
    try (destruct (register_output _ _ _) eqn:?);
    try (destruct (get_hmac _ _ _ _ _) as [[[??]?]|]); intros; simplify_eq/=; done.
Qed.

Lemma globals_after_wf cmd pt params g :
  globals_wf g -> params_ok params -> globals_wf (globals_after cmd pt params g).
Proof.
  intros Hg Hp. unfold globals_after. repeat case_decide; [| | |done].
  - by apply register_shared_key_wf.
  - by apply register_message_wf.
  - by apply register_output_wf.
Qed.

Section Handles.
Context {H : Type} `{TeeCryptoLaws H}.

Lemma get_hmac_handles pt params g (h : H) mac0 r ps h' :
  get_hmac pt params g h mac0 = Some (r, ps, h') -> tee_handles h' = tee_handles h.
Proof.
  unfold get_hmac. case_decide; [intros [= _ _ <-]; apply EMSG_handles|].
  pose proof (hmac_sha1_frees_all h (K g) (K_len g) (Some (input g)) (input_len g)
                (Some mac0) (Some SHA1_HASH_SIZE)) as E.
  destruct (hmac_sha1 _ _ _ _ _ _ _) as [[[??]?]?]. cbn [snd] in E.
  destruct (Verdict.mac_compare_loop _ _ _ _) as [[??]|]; intros; simplify_eq; done.
Qed.

Lemma invoke_handles cmd pt params g (h : H) mac0 r ps g' h' :
  TA_InvokeCommandEntryPoint cmd pt params (g, h) mac0 = Some (r, ps, (g', h')) ->
  tee_handles h' = tee_handles h.
Proof.
  unfold TA_InvokeCommandEntryPoint.
  repeat case_decide;
    try (destruct (register_shared_key _ _ _) eqn:?);
    try (destruct (register_message _ _ _) eqn:?);
    try (destruct (register_output _ _ _) eqn:?); intros; simplify_eq/=; try done.
  destruct (get_hmac _ _ _ _ _) as [[[??]?]|] eqn:E; simplify_eq/=.
  by eapply get_hmac_handles.
Qed.

(** One delivery keeps the buffer invariant and the TEE's handle table. *)
Lemma ta_step_inv (s : ta_instance) e r s' :
  globals_wf (ti_globals s) -> event_ok e -> ta_step s e = Some (r, s') ->
  globals_wf (ti_globals s') /\ tee_handles (ti_tee s') = tee_handles (ti_tee s).
Proof.
  intros Hg He. destruct e as [sid pt|sid cmd pt params mac0|sid]; cbn [ta_step].
  - case_decide; [done|]. intros [= <- <-]. by case_decide.
  - case_decide; [|done].
    destruct (TA_InvokeCommandEntryPoint cmd pt params (ti_globals s, ti_tee s) mac0)
      as [[[r' ps] [g' h']]|] eqn:E; simpl; [|discriminate].
    intros Hs; simplify_eq. simpl.
    pose proof E as Eg. apply invoke_globals_after in Eg as ->.
    split; [by apply globals_after_wf|]. by eapply invoke_handles.
  - case_decide; [|done]. by intros [= <- <-].
Qed.
End Handles.

(** ** Theorems *)

Section Invariant.
Context {H : Type} `{TeeCryptoLaws H}.

Lemma reachable_globals_handles (h0 : H) s :
  reachable h0 s -> globals_wf (ti_globals s) /\ tee_handles (ti_tee s) = tee_handles h0.
Proof.
  induction 1 as [|s e r s' Hr [Hg Hh] He Hs].
  - split; [apply globals_init_wf|done].
  - destruct (ta_step_inv s e r s' Hg He Hs) as [Hg' Hh']. split; [done|congruence].
Qed.

(** C20: every instance the TEE core can reach from [TA_CreateEntryPoint],
    whatever the sessions and commands delivered, keeps the buffer
    invariant and has the TEE's table of handles it started with: no
    operation or key object is leaked across commands (rule induction on
    [reachable]). *)
Theorem reachable_inv (h0 : H) s :
  reachable h0 s -> globals_wf (ti_globals s) /\ tee_handles (ti_tee s) = tee_handles h0.
Proof. apply reachable_globals_handles. Qed.
Lemma ta_step_sessions (s : ta_instance (H:=H)) e r s' :
  ta_step s e = Some (r, s') -> ti_sessions s' = next_sessions (ti_sessions s) e.
Proof.
  destruct e as [sid pt|sid cmd pt params mac0|sid]; cbn [ta_step next_sessions].
  - case_decide; [done|]. intros [= _ <-]. by case_decide.
  - case_decide; [|done].
    destruct (TA_InvokeCommandEntryPoint cmd pt params (ti_globals s, ti_tee s) mac0)
      as [[[??]?]|]; simpl; [|discriminate]. by intros [= _ <-].
  - case_decide; [|done]. by intros [= _ <-].
Qed.

Lemma invoke_some cmd pt params g (h : H) mac0 :
  globals_wf g -> length mac0 = 20%nat ->
  is_Some (TA_InvokeCommandEntryPoint cmd pt params (g, h) mac0).
Proof.
  intros Hg Hm. unfold TA_InvokeCommandEntryPoint.
  repeat case_decide;
    try (destruct (register_shared_key _ _ _));
    try (destruct (register_message _ _ _));
    try (destruct (register_output _ _ _)); eauto.
  destruct (get_hmac_some pt params g h mac0 Hg Hm) as [[[r ps] h'] ->]. simpl. eauto.
Qed.

(** Progress: a delivery the core may make to an instance whose buffers
    are well formed always has a result. *)
Lemma ta_step_progress (s : ta_instance (H:=H)) e :
  globals_wf (ti_globals s) -> delivery_ok (ti_sessions s) e ->
  exists r s', ta_step s e = Some (r, s').
Proof.
  intros Hg He. destruct e as [sid pt|sid cmd pt params mac0|sid]; cbn [ta_step]; simpl in He.
  - rewrite decide_False by done. eauto.
  - destruct He as (Hs & _ & Hm). rewrite decide_True by done.
    destruct (invoke_some cmd pt params (ti_globals s) (ti_tee s) mac0 Hg Hm) as [[[r ps] gh] ->].
    simpl. eauto.
  - rewrite decide_True by done. eauto.
Qed.

(** C28: liveness: from any instance the TEE core can reach, every
    sequence of deliveries it may make (sessions opened once, used and
    closed only while open) runs to the end: no command of the TA gets
    stuck or reads out of bounds on the way. *)
Theorem ta_run_completes (h0 : H) s evs :
  reachable h0 s -> deliveries_ok (ti_sessions s) evs ->
  exists rs s', ta_run s evs = Some (rs, s').
Proof.
  induction evs as [|e evs IH] in s |- *; intros Hr Hok; [simpl; eauto|].
  destruct Hok as [He Hrest].
  destruct (reachable_globals_handles h0 s Hr) as [Hg _].
  destruct (ta_step_progress s e Hg He) as (r & s1 & E).
  assert (Hr1 : reachable h0 s1).
  { apply (reachable_step h0 s e r s1 Hr); [destruct e; simpl in *; naive_solver|done]. }
  rewrite <- (ta_step_sessions s e r s1 E) in Hrest.
  destruct (IH s1 Hr1 Hrest) as (rs & s2 & E2).
  simpl. rewrite E. simpl. rewrite E2. simpl. eauto.
Qed.

End Invariant.

(** ** Two scenarios of two sessions

    The client of [Host] run as two sessions: session 1 registers the key,
    the message and the tag of the test vector; session 2 registers a tag
    of its own; session 1 asks for its verdict. *)

Definition buffer_params (buf : bytes) : list TEE_Param := [TP_memref buf; TP_none; TP_none; TP_none].
Definition verdict_params : list TEE_Param := [TP_value 0 0; TP_none; TP_none; TP_none].

Definition ev_register (sid : nat) (cmd : Z) (buf : bytes) : ta_event :=
  EvInvokeCommand sid cmd exp_register_types (buffer_params buf) (replicate 20 0).
Definition ev_get (sid : nat) : ta_event :=
  EvInvokeCommand sid TA_HMAC_CMD_GET_HMAC exp_get_hmac_types verdict_params (replicate 20 0).

Definition interleaved_sessions : list ta_event :=
  [EvOpenSession 1 0; EvOpenSession 2 0;
   ev_register 1 TA_HMAC_CMD_REGISTER_SHARED_KEY Host.mac_data_sha1_key1;
   ev_register 1 TA_HMAC_CMD_REGISTER_MESSAGE Host.mac_data_sha1_in1;
   ev_register 1 TA_HMAC_CMD_REGISTER_OUTPUT Host.mac_data_sha1_out1;
   ev_register 2 TA_HMAC_CMD_REGISTER_OUTPUT (replicate 20 0);
   ev_get 1].

(** Session 1 registers a key and closes; session 2 registers only a
    message and a tag and asks for a verdict. *)
Definition successive_sessions : list ta_event :=
  [EvOpenSession 1 0;
   ev_register 1 TA_HMAC_CMD_REGISTER_SHARED_KEY Host.mac_data_sha1_key1;
   EvCloseSession 1; EvOpenSession 2 0;
   ev_register 2 TA_HMAC_CMD_REGISTER_MESSAGE Host.mac_data_sha1_in1;
   ev_register 2 TA_HMAC_CMD_REGISTER_OUTPUT Host.mac_data_sha1_out1;
   ev_get 2].

Import Heap.

(** ** Witnesses *)

Lemma reachable_inv_witness :
  globals_wf (ti_globals (mkInstance ta_globals_init (Heap.empty_heap 2) {[1%nat]})) /\
  tee_handles (ti_tee (mkInstance ta_globals_init (Heap.empty_heap 2) {[1%nat]})) =
    tee_handles (Heap.empty_heap 2).
Proof.
  apply reachable_inv.
  apply (reachable_step _ (ta_create (Heap.empty_heap 2)) (EvOpenSession 1 0) (0, []));
    [apply reachable_create|exact I|vm_compute; reflexivity].
Defined.

Lemma ta_run_completes_witness :
  exists rs s', ta_run (ta_create (Heap.empty_heap 2)) interleaved_sessions = Some (rs, s').
Proof.
  apply (ta_run_completes (Heap.empty_heap 2));
    [apply reachable_create|apply (bool_decide_unpack _); vm_compute; reflexivity].
Defined.

End Sessions.
