(* ===== verification/Store.v ===== *)
(** * The Secure State Store and the Verifier as the spec states them

    The spec (§4.2, §4.4, §6) describes the TA's state as three
    independent slots, each the bytes last written to it (none before the
    first write), with [set] rejecting a buffer larger than the slot's
    capacity and [verify] comparing [tag[0 .. len)] of HMAC-SHA1 over the
    stored key and message with the stored expected output.  [store] and
    [store_step] are that contract; [abs] reads it off the TA's static
    buffers (each slot is its buffer's first [len] bytes).  The first
    theorem of this file is the refinement: every command of [hmac_ta.c], run on
    well-formed buffers and a TEE with room for [hmac_sha1]'s two
    handles, returns what the contract returns and leaves buffers whose
    slots are the contract's, with the TEE's handle table and capacity
    unchanged, so that it applies again to the next command.  Lifted to
    the deliveries of [Sessions]: every sequence the TEE core may make
    runs as the contract does on ONE store for all sessions
    ([contract_run]), which is the precise form of the sharing the spec
    warns about (§5, §9). *)

From S2P Require Import Prelude Sha1 Hmac TeeApi Verdict HmacTa Sessions.

Module Store.
Import HmacTa Sessions.

(** ** The contract *)

Inductive slot := SlotKey | SlotMessage | SlotOutput.

#[export] Instance slot_eq_dec : EqDecision slot.
Proof. solve_decision. Defined.

Record store := mkStore { st_key : bytes; st_message : bytes; st_output : bytes }.

(** Nothing written yet: every slot has logical length 0. *)
Definition store_init : store := mkStore [] [] [].

Definition capacity (sl : slot) : nat :=
  match sl with SlotKey => 64 | SlotMessage => 64 | SlotOutput => 20 end.

Definition store_put (sl : slot) (v : bytes) (st : store) : store :=
  match sl with
  | SlotKey => mkStore v (st_message st) (st_output st)
  | SlotMessage => mkStore (st_key st) v (st_output st)
  | SlotOutput => mkStore (st_key st) (st_message st) v
  end.

(** The requests of §6, and an identifier no command has. *)
Inductive request := Register (sl : slot) (v : bytes) | GetVerdict | Unknown.

(** [verify] of §4.4: 0 (Match) when [tag[0 .. len)] equals the stored
    output of length [len], 1 (Mismatch) otherwise. *)
Definition verdict (st : store) : Z :=
  let tag := Hmac.HMAC_SHA1 (st_key st) (st_message st) in
  if decide (take (length (st_output st)) tag = st_output st) then 0 else 1.

(** One request: the descriptor check of §4.1 ([typed]), the capacity
    check of [set] (§4.2), the key range [10, 64] the handler checks
    before the adapter runs (§4.3); a verdict only when the command
    succeeds (§7). *)
Definition store_step (typed : bool) (rq : request) (st : store)
    : TEE_Result * option Z * store :=
  match rq with
  | Unknown => (TEE_ERROR_BAD_PARAMETERS, None, st)
  | Register sl v =>
      if typed && bool_decide (length v <= capacity sl)%nat
      then (TEE_SUCCESS, None, store_put sl v st)
      else (TEE_ERROR_BAD_PARAMETERS, None, st)
  | GetVerdict =>
      if typed && bool_decide (10 <= length (st_key st) <= 64)%nat
      then (TEE_SUCCESS, Some (verdict st), st)
      else (TEE_ERROR_BAD_PARAMETERS, None, st)
  end.

(** ** The code seen as the contract *)

(** What [TA_InvokeCommandEntryPoint] dispatches a command to. *)
Definition request_of (cmd : Z) (params : list TEE_Param) : request :=
  if decide (cmd = TA_HMAC_CMD_REGISTER_SHARED_KEY) then Register SlotKey (memref_buffer (param0 params))
  else if decide (cmd = TA_HMAC_CMD_REGISTER_MESSAGE) then Register SlotMessage (memref_buffer (param0 params))
  else if decide (cmd = TA_HMAC_CMD_REGISTER_OUTPUT) then Register SlotOutput (memref_buffer (param0 params))
  else if decide (cmd = TA_HMAC_CMD_GET_HMAC) then GetVerdict
  else Unknown.

(** Whether the descriptor is the one the command's handler expects. *)
Definition typed_for (cmd pt : Z) : bool :=
  bool_decide (pt = if decide (cmd = TA_HMAC_CMD_GET_HMAC) then exp_get_hmac_types
                    else exp_register_types).

Definition abs (g : ta_globals) : store :=
  mkStore (take (Z.to_nat (K_len g)) (K g)) (take (Z.to_nat (input_len g)) (input g))
          (take (Z.to_nat (output_len g)) (output g)).

(** ** The whole instance against one store

    What the TEE core's deliveries do under the contract when the store
    is the instance's, shared by all its sessions: opening a session is
    [TA_OpenSessionEntryPoint]'s check, closing one changes nothing, a
    command is [store_step]. *)
Definition contract_event (st : store) (e : ta_event) : TEE_Result * option Z * store :=
  match e with
  | EvOpenSession _ pt => (TA_OpenSessionEntryPoint pt, None, st)
  | EvInvokeCommand _ cmd pt params _ => store_step (typed_for cmd pt) (request_of cmd params) st
  | EvCloseSession _ => (TEE_SUCCESS, None, st)
  end.

Fixpoint contract_run (st : store) (evs : list ta_event) : list (TEE_Result * option Z) * store :=
  match evs with
  | [] => ([], st)
  | e :: evs' =>
      let '(r, v, st1) := contract_event st e in
      let '(rs, st2) := contract_run st1 evs' in ((r, v) :: rs, st2)
  end.

Definition event_params (e : ta_event) : list TEE_Param :=
  match e with EvInvokeCommand _ _ _ params _ => params | _ => [] end.

(** A delivery's result as the contract has it: the same code, and the
    contract's verdict in [value.a] when it reports one. *)
Definition result_agrees (e : ta_event) (rr : step_result) (cr : TEE_Result * option Z) : Prop :=
  rr.1 = cr.1 /\ (forall x, cr.2 = Some x -> rr.2 = alter (set_value_a x) 0%nat (event_params e)).

Fixpoint results_agree (evs : list ta_event) (rs : list step_result)
    (crs : list (TEE_Result * option Z)) : Prop :=
  match evs, rs, crs with
  | [], [], [] => True
  | e :: evs', rr :: rs', cr :: crs' => result_agrees e rr cr /\ results_agree evs' rs' crs'
  | _, _, _ => False
  end.

(** ** Lemmas *)

Lemma abs_init : abs ta_globals_init = store_init.
Proof. reflexivity. Qed.

Lemma slot_wf_length cap buf len :
  slot_wf cap buf len -> length (take (Z.to_nat len) buf) = Z.to_nat len.
Proof. intros (Hl & Hb & _). rewrite length_take. lia. Qed.

Lemma abs_verdict g : globals_wf g -> verdict (abs g) = expected_verdict g.
Proof.
  intros (_ & _ & Ho). unfold verdict, expected_verdict, abs. cbn [st_key st_message st_output].
  by rewrite (slot_wf_length _ _ _ Ho).
Qed.

(** The body the three register handlers share, against [set]. *)
Lemma register_abs (cap : Z) sl pt params g (upd : bytes -> Z -> ta_globals) :
  Z.of_nat (capacity sl) = cap ->
  (forall b l, 0 <= l -> abs (upd b l) = store_put sl (take (Z.to_nat l) b) (abs g)) ->
  let r := if decide (pt <> exp_register_types) then (TEE_ERROR_BAD_PARAMETERS, g) else
           if decide (memref_size (param0 params) > cap) then (TEE_ERROR_BAD_PARAMETERS, g) else
           (TEE_SUCCESS, upd (memcpy (memset0 (Z.to_nat cap)) (memref_buffer (param0 params))
                                     (Z.to_nat (memref_size (param0 params))))
                             (memref_size (param0 params))) in
  let '(r0, v, st') := store_step (bool_decide (pt = exp_register_types))
                                  (Register sl (memref_buffer (param0 params))) (abs g) in
  r.1 = r0 /\ abs r.2 = st' /\ v = None.
Proof.
  intros <- Hupd. cbn zeta. unfold store_step, memref_size in *.
  case_bool_decide as Hpt; [rewrite decide_False by tauto|by rewrite decide_True].
  case_bool_decide as Hc.
  - rewrite decide_False by lia. cbn [fst snd]. rewrite Hupd by lia. split_and!; [done| |done].
    f_equal. rewrite !Nat2Z.id, memcpy_zero_full by lia. by rewrite take_app_length.
  - by rewrite decide_True by lia.
Qed.

Section HeapStore.
Import Heap.

(** Room in the TEE for the operation and the key object of [hmac_sha1]. *)
Definition room (h : heap) : Prop := (size (h_objects h) + 2 <= h_capacity h)%nat.

(** GET_HMAC against [verify]: on success [value.a] is the contract's
    verdict; a key out of [10, 64] or a wrong descriptor fails. *)
Lemma get_hmac_refines pt params g (h : heap) (mac0 : bytes) :
  globals_wf g -> length mac0 = 20%nat -> room h ->
  exists r ps h', get_hmac pt params g h mac0 = Some (r, ps, h') /\
    tee_handles h' = tee_handles h /\ h_capacity h' = h_capacity h /\
    let '(r0, v, st') := store_step (bool_decide (pt = exp_get_hmac_types)) GetVerdict (abs g) in
    r = r0 /\ st' = abs g /\ (forall x, v = Some x -> ps = alter (set_value_a x) 0%nat params).
Proof.
  intros Hg Hm Hr. unfold store_step.
  case_bool_decide as Hpt; cbn [andb]; [subst pt|].
  2: { eexists _, _, _. unfold get_hmac. rewrite decide_True by done.
       split_and!; [reflexivity|apply EMSG_handles|apply EMSG_capacity|done..]. }
  pose proof Hg as ((HKl & HKb & _) & _ & (Hol & Hob & _)).
  replace (length (st_key (abs g))) with (Z.to_nat (K_len g))
    by (symmetry; apply (slot_wf_length _ _ _ (proj1 Hg))).
  destruct (decide (MIN_KEY_SIZE <= K_len g)) as [Hk|Hk].
  - destruct (get_hmac_heap_run g h params mac0 Hg Hk Hr Hm) as (h' & E & Hh & Hc).
    exists TEE_SUCCESS, (alter (set_value_a (expected_verdict g)) 0%nat params), h'.
    rewrite bool_decide_true by (unfold MIN_KEY_SIZE in Hk; lia).
    split_and!; try done. intros x [= <-]. by rewrite abs_verdict.
  - pose proof (Verdict.mac_compare_loop_correct (Z.to_nat (output_len g)) mac0 (output g)
                  ltac:(lia) ltac:(lia)) as El.
    eexists _, _, h. rewrite (get_hmac_bad_key _ params g h mac0 _ _ eq_refl ltac:(lia) El).
    rewrite bool_decide_false by (unfold MIN_KEY_SIZE in Hk; lia).
    split_and!; done.
Qed.

Lemma room_same (h h' : heap) :
  tee_handles h' = tee_handles h -> h_capacity h' = h_capacity h -> room h -> room h'.
Proof. unfold room. intros E%handles_size C. lia. Qed.

(** The register handlers through [abs]. *)
Lemma register_shared_key_abs pt params g :
  let '(r0, v, st') := store_step (bool_decide (pt = exp_register_types))
                         (Register SlotKey (memref_buffer (param0 params))) (abs g) in
  (register_shared_key pt params g).1 = r0 /\ abs (register_shared_key pt params g).2 = st' /\ v = None.
Proof.
  by apply (register_abs MAX_KEY_SIZE SlotKey pt params g
              (fun k l => mkGlobals k l (input g) (input_len g) (output g) (output_len g))).
Qed.

Lemma register_message_abs pt params g :
  let '(r0, v, st') := store_step (bool_decide (pt = exp_register_types))
                         (Register SlotMessage (memref_buffer (param0 params))) (abs g) in
  (register_message pt params g).1 = r0 /\ abs (register_message pt params g).2 = st' /\ v = None.
Proof.
  by apply (register_abs MAX_MESSAGE_SIZE SlotMessage pt params g
              (fun i l => mkGlobals (K g) (K_len g) i l (output g) (output_len g))).
Qed.

Lemma register_output_abs pt params g :
  let '(r0, v, st') := store_step (bool_decide (pt = exp_register_types))
                         (Register SlotOutput (memref_buffer (param0 params))) (abs g) in
  (register_output pt params g).1 = r0 /\ abs (register_output pt params g).2 = st' /\ v = None.
Proof.
  by apply (register_abs SHA1_HASH_SIZE SlotOutput pt params g
              (fun o l => mkGlobals (K g) (K_len g) (input g) (input_len g) o l)).
Qed.

(** One command against the contract. *)
Lemma invoke_refines_store cmd pt params g (h : heap) mac0 :
  globals_wf g -> params_ok params -> length mac0 = 20%nat -> room h ->
  exists r ps g' h',
    TA_InvokeCommandEntryPoint cmd pt params (g, h) mac0 = Some (r, ps, (g', h')) /\
    globals_wf g' /\ room h' /\
    let '(r0, v, st') := store_step (typed_for cmd pt) (request_of cmd params) (abs g) in
    r = r0 /\ abs g' = st' /\ (forall x, v = Some x -> ps = alter (set_value_a x) 0%nat params).
Proof.
  intros Hg Hp Hm Hr. unfold TA_InvokeCommandEntryPoint, request_of, typed_for.
  case_decide as Hc0; [|case_decide as Hc1; [|case_decide as Hc2; [|case_decide as Hc3]]];
    try (rewrite decide_False by (subst; discriminate)).
  - pose proof (register_shared_key_abs pt params g) as A. pose proof (register_shared_key_wf pt params g Hg Hp) as W.
    destruct (register_shared_key pt params g) as [r g'].
    destruct (store_step _ _ _) as [[r0 v] st']. cbn [fst snd] in A. destruct A as (-> & <- & ->).
    exists r0, params, g', h. naive_solver.
  - pose proof (register_message_abs pt params g) as A. pose proof (register_message_wf pt params g Hg Hp) as W.
    destruct (register_message pt params g) as [r g'].
    destruct (store_step _ _ _) as [[r0 v] st']. cbn [fst snd] in A. destruct A as (-> & <- & ->).
    exists r0, params, g', h. naive_solver.
  - pose proof (register_output_abs pt params g) as A. pose proof (register_output_wf pt params g Hg Hp) as W.
    destruct (register_output pt params g) as [r g'].
    destruct (store_step _ _ _) as [[r0 v] st']. cbn [fst snd] in A. destruct A as (-> & <- & ->).
    exists r0, params, g', h. naive_solver.
  - destruct (get_hmac_refines pt params g h mac0 Hg Hm Hr) as (r & ps & h' & E & Hh & Hcap & A).
    rewrite E. exists r, ps, g, h'. split_and!; [done|done|by eapply room_same|].
    destruct (store_step _ _ _) as [[r0 v] st']. naive_solver.
  - exists TEE_ERROR_BAD_PARAMETERS, params, g, h. naive_solver.
Qed.

(** C19: refinement of the spec's store and verifier by the TA: on
    well-formed buffers and a TEE with room for [hmac_sha1]'s two
    handles, every command returns the result code of the request it
    dispatches to under the contract [store_step], leaves buffers whose
    slots ([abs]) are the contract's next store, writes the contract's
    verdict into [value.a] when it reports one, and keeps the buffer
    invariant and the room in the TEE for the next command. *)
Theorem ta_refines_store cmd pt params g (h : heap) mac0 :
  globals_wf g -> params_ok params -> length mac0 = 20%nat -> room h ->
  exists r ps g' h',
    TA_InvokeCommandEntryPoint cmd pt params (g, h) mac0 = Some (r, ps, (g', h')) /\
    globals_wf g' /\ room h' /\
    let '(r0, v, st') := store_step (typed_for cmd pt) (request_of cmd params) (abs g) in
    r = r0 /\ abs g' = st' /\ (forall x, v = Some x -> ps = alter (set_value_a x) 0%nat params).
Proof. apply invoke_refines_store. Qed.


Lemma ta_refines_store_witness :
  exists r ps g' h',
    TA_InvokeCommandEntryPoint TA_HMAC_CMD_GET_HMAC exp_get_hmac_types
      [TP_value 0 0; TP_none; TP_none; TP_none] (sample_globals, empty_heap 2) (replicate 20 0) =
      Some (r, ps, (g', h')) /\
    globals_wf g' /\ room h' /\
    let '(r0, v, st') := store_step (typed_for TA_HMAC_CMD_GET_HMAC exp_get_hmac_types)
                           (request_of TA_HMAC_CMD_GET_HMAC [TP_value 0 0; TP_none; TP_none; TP_none])
                           (abs sample_globals) in
    r = r0 /\ abs g' = st' /\
    (forall x, v = Some x -> ps = alter (set_value_a x) 0%nat [TP_value 0 0; TP_none; TP_none; TP_none]).
Proof.
  apply ta_refines_store;
    [apply (bool_decide_unpack _); vm_compute; reflexivity|vm_compute; repeat constructor|
     reflexivity|unfold room; vm_compute; lia].
Defined.

(** One delivery the core may make, against [contract_event]. *)
Lemma step_refines_store (s : ta_instance (H:=heap)) e :
  globals_wf (ti_globals s) -> room (ti_tee s) -> delivery_ok (ti_sessions s) e ->
  exists rr s', ta_step s e = Some (rr, s') /\
    globals_wf (ti_globals s') /\ room (ti_tee s') /\
    ti_sessions s' = next_sessions (ti_sessions s) e /\
    let '(r0, v, st') := contract_event (abs (ti_globals s)) e in
    result_agrees e rr (r0, v) /\ abs (ti_globals s') = st'.
Proof.
  intros Hg Hr Hd. destruct e as [sid pt|sid cmd pt params mac0|sid];
    cbn [ta_step contract_event next_sessions delivery_ok] in *.
  - rewrite decide_False by done. eexists _, _. split; [reflexivity|].
    case_decide; cbn [ti_globals ti_tee ti_sessions]; split_and!; try done; by intros ??.
  - destruct Hd as (Hs & Hp & Hm). rewrite decide_True by done.
    destruct (invoke_refines_store cmd pt params (ti_globals s) (ti_tee s) mac0 Hg Hp Hm Hr)
      as (r & ps & g' & h' & E & Hg' & Hr' & A).
    rewrite E. eexists _, _. split; [reflexivity|]. cbn [ti_globals ti_tee ti_sessions fst snd].
    split_and!; [done|done|done|].
    destruct (store_step _ _ _) as [[r0 v] st']. destruct A as (-> & -> & Hv).
    split; [|done]. split; [done|]. exact Hv.
  - rewrite decide_True by done. eexists _, _. split; [reflexivity|].
    cbn [ti_globals ti_tee ti_sessions]. split_and!; try done; by intros ??.
Qed.

(** C12: refinement over whole runs: from well-formed buffers and a TEE
    with room, every sequence of deliveries the TEE core may make, on any
    number of sessions opened, used and closed in any order, runs to the
    end with, delivery by delivery, the results of the contract run on
    ONE store shared by all sessions ([contract_run]), and leaves buffers
    whose slots are that store's.  A second GET_HMAC with no registration
    in between thus reports the same verdict, and a registration on one
    session is what every other session's next GET_HMAC reads. *)
Theorem instance_refines_store (s : ta_instance (H:=heap)) evs :
  globals_wf (ti_globals s) -> room (ti_tee s) -> deliveries_ok (ti_sessions s) evs ->
  exists rs s', ta_run s evs = Some (rs, s') /\
    results_agree evs rs (contract_run (abs (ti_globals s)) evs).1 /\
    abs (ti_globals s') = (contract_run (abs (ti_globals s)) evs).2.
Proof.
  induction evs as [|e evs IH] in s |- *; intros Hg Hr Hok; [by exists [], s|].
  destruct Hok as [He Hrest].
  destruct (step_refines_store s e Hg Hr He) as (rr & s1 & E & Hg1 & Hr1 & Hs1 & A).
  rewrite <- Hs1 in Hrest. destruct (IH s1 Hg1 Hr1 Hrest) as (rs & s2 & E2 & Ag & Ab).
  exists (rr :: rs), s2. cbn [ta_run contract_run]. rewrite E. cbn [mbind option_bind]. rewrite E2.
  destruct (contract_event _ e) as [[r0 v] st1]. destruct A as [A <-].
  destruct (contract_run (abs (ti_globals s1)) evs) as [crs st2]. cbn [fst snd] in *. naive_solver.
Qed.

Lemma instance_refines_store_witness :
  exists rs s', ta_run (ta_create (empty_heap 2)) successive_sessions = Some (rs, s') /\
    results_agree successive_sessions rs
      (contract_run (abs (ti_globals (ta_create (empty_heap 2)))) successive_sessions).1 /\
    abs (ti_globals s') =
      (contract_run (abs (ti_globals (ta_create (empty_heap 2)))) successive_sessions).2.
Proof.
  apply instance_refines_store;
    [apply (bool_decide_unpack _); vm_compute; reflexivity|unfold room; vm_compute; lia|
     apply (bool_decide_unpack _); vm_compute; reflexivity].
Defined.

End HeapStore.

End Store.
