(* ===== verification/Clients.v ===== *)
(** * Two clients of the TA at once

    [main] of [main.c] issues, on its session, the deliveries
    [host_events]: open the session, register the key, the message and
    the tag of the test vector, ask for the verdict.  Two such clients
    running at the same time give the TA an interleaving of their two
    sequences ([interleave], one rule per side as in the interleavings of
    list semantics).  The TA keeps one set of static buffers for both
    ([Sessions]); the theorem of this file shows that for two clients of
    this program it does no harm: whatever the interleaving, every command
    succeeds and both clients read the verdict 0.  The proof carries the
    invariant [clients_inv]: the buffers are those the more advanced client
    has registered so far ([globals_at]). *)

From S2P Require Import Prelude TeeApi Verdict HmacTa Host Sessions.

Module Clients.
Import HmacTa Host Sessions.

(** The deliveries of one run of [main] on session [sid] ([mac0]: the
    contents of the TA's stack array during GET_HMAC). *)
Definition host_events (sid : nat) (mac0 : bytes) : list ta_event :=
  [EvOpenSession sid (TEEC_PARAM_TYPES TEEC_NONE TEEC_NONE TEEC_NONE TEEC_NONE);
   EvInvokeCommand sid TA_HMAC_CMD_REGISTER_SHARED_KEY
     (TEEC_PARAM_TYPES TEEC_MEMREF_TEMP_INPUT TEEC_NONE TEEC_NONE TEEC_NONE)
     [TP_memref mac_data_sha1_key1; TP_none; TP_none; TP_none] mac0;
   EvInvokeCommand sid TA_HMAC_CMD_REGISTER_MESSAGE
     (TEEC_PARAM_TYPES TEEC_MEMREF_TEMP_INPUT TEEC_NONE TEEC_NONE TEEC_NONE)
     [TP_memref mac_data_sha1_in1; TP_none; TP_none; TP_none] mac0;
   EvInvokeCommand sid TA_HMAC_CMD_REGISTER_OUTPUT
     (TEEC_PARAM_TYPES TEEC_MEMREF_TEMP_INPUT TEEC_NONE TEEC_NONE TEEC_NONE)
     [TP_memref mac_data_sha1_out1; TP_none; TP_none; TP_none] mac0;
   EvInvokeCommand sid TA_HMAC_CMD_GET_HMAC
     (TEEC_PARAM_TYPES TEEC_VALUE_OUTPUT TEEC_NONE TEEC_NONE TEEC_NONE)
     [TP_value 0 0; TP_none; TP_none; TP_none] mac0].

(** What [main] reports, from the result of its last delivery: the
    earlier ones are the three registrations, which succeed on any
    buffers. *)
Definition host_outcome (o : option step_result) : host_result :=
  match o with
  | Some (r, ps) => if decide (r <> TEEC_SUCCESS) then Failed r else Exited 0 (value_a (param0 ps))
  | None => Exited 1 None
  end.

Inductive interleave {A : Type} : list A -> list A -> list A -> Prop :=
| interleave_nil : interleave [] [] []
| interleave_left x l1 l2 l : interleave l1 l2 l -> interleave (x :: l1) l2 (x :: l)
| interleave_right x l1 l2 l : interleave l1 l2 l -> interleave l1 (x :: l2) (x :: l).

Definition is_get (e : ta_event) : bool :=
  match e with
  | EvInvokeCommand _ cmd _ _ _ => bool_decide (cmd = TA_HMAC_CMD_GET_HMAC)
  | _ => false
  end.

(** What a client of [main] expects of each delivery: success, and the
    verdict 0 from GET_HMAC. *)
Definition client_ok (e : ta_event) (r : step_result) : Prop :=
  r.1 = TEE_SUCCESS /\ (is_get e = true -> value_a (param0 r.2) = Some 0).

(** The buffers once the more advanced client has made [m] deliveries. *)
Definition globals_at (m : nat) : ta_globals :=
  mkGlobals (if (2 <=? m)%nat then K host_globals else K ta_globals_init)
            (if (2 <=? m)%nat then 10 else 0)
            (if (3 <=? m)%nat then input host_globals else input ta_globals_init)
            (if (3 <=? m)%nat then 43 else 0)
            (if (4 <=? m)%nat then output host_globals else output ta_globals_init)
            (if (4 <=? m)%nat then 20 else 0).

Definition opened (sid k : nat) : gset nat := if bool_decide (1 <= k)%nat then {[sid]} else ∅.

Section Invariant.
Import Heap.

(** Client [a] has made [ka] deliveries and client [b] [kb]. *)
Definition clients_inv (a ka b kb : nat) (s : ta_instance (H:=heap)) : Prop :=
  ti_sessions s = opened a ka ∪ opened b kb /\
  ti_globals s = globals_at (Nat.max ka kb) /\
  (size (h_objects (ti_tee s)) + 2 <= h_capacity (ti_tee s))%nat.

End Invariant.

(** ** Lemmas *)

Lemma globals_at_open k : globals_at (Nat.max 1 k) = globals_at (Nat.max 0 k).
Proof. by destruct k as [|[|k]]. Qed.

Lemma globals_at_host m : (4 <= m)%nat -> globals_at m = host_globals.
Proof. intros Hm. do 4 (destruct m as [|m]; [lia|]). reflexivity. Qed.

Lemma clients_inv_sym a ka b kb s : clients_inv a ka b kb s -> clients_inv b kb a ka s.
Proof.
  intros (Hs & Hg & Hr). split_and!; [by rewrite Hs, union_comm_L|by rewrite Hg, Nat.max_comm|done].
Qed.

Lemma globals_at_key k :
  mkGlobals (K host_globals) 10 (input (globals_at (Nat.max 1 k))) (input_len (globals_at (Nat.max 1 k)))
            (output (globals_at (Nat.max 1 k))) (output_len (globals_at (Nat.max 1 k)))
  = globals_at (Nat.max 2 k).
Proof. by destruct k as [|[|[|[|[|k]]]]]. Qed.

Lemma globals_at_message k :
  mkGlobals (K (globals_at (Nat.max 2 k))) (K_len (globals_at (Nat.max 2 k))) (input host_globals) 43
            (output (globals_at (Nat.max 2 k))) (output_len (globals_at (Nat.max 2 k)))
  = globals_at (Nat.max 3 k).
Proof. by destruct k as [|[|[|[|[|k]]]]]. Qed.

Lemma globals_at_output k :
  mkGlobals (K (globals_at (Nat.max 3 k))) (K_len (globals_at (Nat.max 3 k)))
            (input (globals_at (Nat.max 3 k))) (input_len (globals_at (Nat.max 3 k)))
            (output host_globals) 20
  = globals_at (Nat.max 4 k).
Proof. by destruct k as [|[|[|[|[|k]]]]]. Qed.

(** The three registrations of [main], on any buffers. *)
Lemma invoke_host_key {H : Type} `{TeeCrypto H} g (h : H) mac0 :
  TA_InvokeCommandEntryPoint TA_HMAC_CMD_REGISTER_SHARED_KEY
    (TEEC_PARAM_TYPES TEEC_MEMREF_TEMP_INPUT TEEC_NONE TEEC_NONE TEEC_NONE)
    [TP_memref mac_data_sha1_key1; TP_none; TP_none; TP_none] (g, h) mac0 =
  Some (TEE_SUCCESS, [TP_memref mac_data_sha1_key1; TP_none; TP_none; TP_none],
        (mkGlobals (K host_globals) 10 (input g) (input_len g) (output g) (output_len g), h)).
Proof. reflexivity. Qed.

Lemma invoke_host_message {H : Type} `{TeeCrypto H} g (h : H) mac0 :
  TA_InvokeCommandEntryPoint TA_HMAC_CMD_REGISTER_MESSAGE
    (TEEC_PARAM_TYPES TEEC_MEMREF_TEMP_INPUT TEEC_NONE TEEC_NONE TEEC_NONE)
    [TP_memref mac_data_sha1_in1; TP_none; TP_none; TP_none] (g, h) mac0 =
  Some (TEE_SUCCESS, [TP_memref mac_data_sha1_in1; TP_none; TP_none; TP_none],
        (mkGlobals (K g) (K_len g) (input host_globals) 43 (output g) (output_len g), h)).
Proof. reflexivity. Qed.

Lemma invoke_host_output {H : Type} `{TeeCrypto H} g (h : H) mac0 :
  TA_InvokeCommandEntryPoint TA_HMAC_CMD_REGISTER_OUTPUT
    (TEEC_PARAM_TYPES TEEC_MEMREF_TEMP_INPUT TEEC_NONE TEEC_NONE TEEC_NONE)
    [TP_memref mac_data_sha1_out1; TP_none; TP_none; TP_none] (g, h) mac0 =
  Some (TEE_SUCCESS, [TP_memref mac_data_sha1_out1; TP_none; TP_none; TP_none],
        (mkGlobals (K g) (K_len g) (input g) (input_len g) (output host_globals) 20, h)).
Proof. reflexivity. Qed.

Lemma invoke_host_get {H : Type} `{TeeCrypto H} g (h : H) mac0 ps :
  TA_InvokeCommandEntryPoint TA_HMAC_CMD_GET_HMAC
    (TEEC_PARAM_TYPES TEEC_VALUE_OUTPUT TEEC_NONE TEEC_NONE TEEC_NONE) ps (g, h) mac0 =
  (fun '(r, ps, h) => (r, ps, (g, h))) <$> get_hmac exp_get_hmac_types ps g h mac0.
Proof. reflexivity. Qed.

Lemma host_open_ok :
  TA_OpenSessionEntryPoint (TEEC_PARAM_TYPES TEEC_NONE TEEC_NONE TEEC_NONE TEEC_NONE) = TEE_SUCCESS.
Proof. reflexivity. Qed.

Lemma drop_cons {A : Type} (L l : list A) k x d :
  drop k L = x :: l -> nth k L d = x /\ drop (S k) L = l /\ (k < length L)%nat.
Proof.
  intros E. assert (Hk : L !! k = Some x) by (rewrite <- (Nat.add_0_r k), <- lookup_drop, E; done).
  split_and!.
  - by apply nth_lookup_Some.
  - replace (S k) with (k + 1)%nat by lia. by rewrite <- drop_drop, E.
  - by apply lookup_lt_Some in Hk.
Qed.

Ltac opened_solver := unfold opened; repeat case_bool_decide; try lia; set_solver.

(** Refinement between the two models of the client: [main], run
    against the TA's buffers [g] and a TEE [h], reports what the last of
    its deliveries [host_events] reports when they are run as one session
    of an instance holding [g] and [h], and leaves the same buffers and
    TEE (what it prints is not a delivery, and is left out). *)
Theorem main_is_one_session {H : Type} `{TeeCrypto H} g (h : H) mac0 :
  (fun '(r, _, s) => (r, s)) <$> main TEEC_SUCCESS (g, h) mac0 =
    (fun '(rs, s) => (host_outcome (last rs), (ti_globals s, ti_tee s))) <$>
      ta_run (mkInstance g h ∅) (host_events 1 mac0).
Proof.
  rewrite main_after_registration. cbn [ta_run host_events ta_step].
  rewrite decide_False by set_solver. rewrite host_open_ok, decide_True by done. cbn [mbind option_bind ti_globals ti_tee ti_sessions].
  rewrite decide_True by set_solver. rewrite invoke_host_key. cbn [mbind option_bind ti_globals ti_tee ti_sessions].
  rewrite decide_True by set_solver. rewrite invoke_host_message. cbn [mbind option_bind ti_globals ti_tee ti_sessions].
  rewrite decide_True by set_solver. rewrite invoke_host_output. cbn [mbind option_bind ti_globals ti_tee ti_sessions].
  rewrite decide_True by set_solver. rewrite invoke_host_get.
  cbn [fst snd K K_len input input_len output output_len].
  change (mkGlobals (K host_globals) 10 (input host_globals) 43 (output host_globals) 20) with host_globals.
  destruct (get_hmac exp_get_hmac_types [TP_value 0 0; TP_none; TP_none; TP_none] host_globals h mac0)
    as [[[r ps] h']|]; simpl; [|done].
  by case_decide.
Qed.

Section Step.
Import Heap.

(** One delivery of client [a], whatever client [b] has done. *)
Lemma client_step a b ka kb (mac : bytes) (s : ta_instance (H:=heap)) :
  a <> b -> (ka < 5)%nat -> length mac = 20%nat -> clients_inv a ka b kb s ->
  exists r s', ta_step s (nth ka (host_events a mac) (EvCloseSession a)) = Some (r, s') /\
    client_ok (nth ka (host_events a mac) (EvCloseSession a)) r /\ clients_inv a (S ka) b kb s'.
Proof.
  intros Hab Hka Hm. destruct s as [g h ss]. intros (Hs & Hg & Hr); cbn [ti_sessions ti_globals ti_tee] in *.
  subst ss g. destruct ka as [|[|[|[|[|ka]]]]]; [| | | | |lia]; cbn [nth host_events ta_step].
  - rewrite decide_False by opened_solver. rewrite host_open_ok, decide_True by done.
    do 2 eexists. split; [reflexivity|]. split; [split; [done|discriminate]|].
    split_and!; cbn [ti_sessions ti_globals ti_tee]; [opened_solver|by rewrite globals_at_open|done].
  - rewrite decide_True by opened_solver. rewrite invoke_host_key. simpl.
    do 2 eexists. split; [reflexivity|]. split; [split; [done|discriminate]|].
    split_and!; cbn [ti_sessions ti_globals ti_tee]; [opened_solver|apply globals_at_key|done].
  - rewrite decide_True by opened_solver. rewrite invoke_host_message. simpl.
    do 2 eexists. split; [reflexivity|]. split; [split; [done|discriminate]|].
    split_and!; cbn [ti_sessions ti_globals ti_tee]; [opened_solver|apply globals_at_message|done].
  - rewrite decide_True by opened_solver. rewrite invoke_host_output. simpl.
    do 2 eexists. split; [reflexivity|]. split; [split; [done|discriminate]|].
    split_and!; cbn [ti_sessions ti_globals ti_tee]; [opened_solver|apply globals_at_output|done].
  - rewrite decide_True by opened_solver. rewrite invoke_host_get.
    rewrite (globals_at_host (Nat.max 4 kb)) by lia.
    destruct (get_hmac_heap_run host_globals h [TP_value 0 0; TP_none; TP_none; TP_none] mac)
      as (h' & E & Hh & Hc); [apply host_globals_wf|vm_compute; discriminate|done|done|].
    cbn [ti_globals ti_tee]. rewrite E, host_expected_verdict. simpl.
    do 2 eexists. split; [reflexivity|]. split; [split; [done|intros _; reflexivity]|].
    split_and!; cbn [ti_sessions ti_globals ti_tee];
      [opened_solver|symmetry; apply globals_at_host; lia|].
    rewrite Hc, (handles_size h' h Hh). done.
Qed.
Section Run.
Context (mac1 mac2 : bytes).
Hypothesis (Hm1 : length mac1 = 20%nat) (Hm2 : length mac2 = 20%nat).

Lemma clients_run l1 l2 l :
  interleave l1 l2 l -> forall k1 k2 (s : ta_instance (H:=heap)),
  l1 = drop k1 (host_events 1 mac1) -> l2 = drop k2 (host_events 2 mac2) ->
  clients_inv 1 k1 2 k2 s ->
  exists rs s', ta_run s l = Some (rs, s') /\ Forall2 client_ok l rs.
Proof.
  induction 1 as [|x l1 l2 l Hil IH|x l1 l2 l Hil IH]; intros k1 k2 s E1 E2 Hinv.
  - exists [], s. split; [done|constructor].
  - symmetry in E1. apply (drop_cons _ _ _ _ (EvCloseSession 1)) in E1 as (Hx & E1 & Hk).
    destruct (client_step 1 2 k1 k2 mac1 s) as (r & s1 & Es & Hok & Hinv1); [done|done|done|done|].
    rewrite Hx in Es, Hok.
    destruct (IH (S k1) k2 s1) as (rs & s2 & Er & Hf); [done|done|done|].
    exists (r :: rs), s2. simpl. rewrite Es. simpl. rewrite Er. split; [done|by constructor].
  - symmetry in E2. apply (drop_cons _ _ _ _ (EvCloseSession 2)) in E2 as (Hx & E2 & Hk).
    destruct (client_step 2 1 k2 k1 mac2 s) as (r & s1 & Es & Hok & Hinv1);
      [done|done|done|by apply clients_inv_sym|].
    rewrite Hx in Es, Hok.
    destruct (IH k1 (S k2) s1) as (rs & s2 & Er & Hf); [done|done|by apply clients_inv_sym|].
    exists (r :: rs), s2. simpl. rewrite Es. simpl. rewrite Er. split; [done|by constructor].
Qed.

(** C29: two clients running [main] at the same time on one TA instance,
    with a TEE that has room for the two handles of a MAC computation:
    whatever the interleaving of their deliveries, every delivery
    succeeds and each client's GET_HMAC reports the match 0.  The buffers
    the clients share never hold anything but the test vector. *)
Theorem two_clients_both_match (h : heap) evs :
  (size (h_objects h) + 2 <= h_capacity h)%nat ->
  interleave (host_events 1 mac1) (host_events 2 mac2) evs ->
  exists rs s, ta_run (ta_create h) evs = Some (rs, s) /\ Forall2 client_ok evs rs.
Proof.
  intros Hr Hil. apply (clients_run _ _ _ Hil 0 0); [done|done|].
  split_and!; [opened_solver|reflexivity|done].
Qed.
End Run.
End Step.

(** ** Witness: the two clients alternate, delivery by delivery *)

Definition clients_alternating : list ta_event :=
  mjoin (zip_with (fun x y => [x; y]) (host_events 1 (replicate 20 0)) (host_events 2 (replicate 20 0))).

Section Witness.
Import Heap.

Lemma two_clients_both_match_witness :
  exists rs s, ta_run (ta_create (Heap.empty_heap 2)) clients_alternating = Some (rs, s) /\
               Forall2 client_ok clients_alternating rs.
Proof.
  apply (two_clients_both_match (replicate 20 0) (replicate 20 0) eq_refl eq_refl (Heap.empty_heap 2));
    [vm_compute; lia|unfold clients_alternating; simpl; repeat constructor].
Defined.
End Witness.

End Clients.
